(** * weather.py: a tool-invocation shim

    A shallow embedding of [tool_example/weather.py] and of the parts of the
    Python runtime it calls ([json.loads], [json.dumps], [dict.get], f-string
    formatting, [print], the handling of an uncaught exception), followed by
    the properties of the command-line contract.

    Conventions of the model:
    - a Python [str] is the list of its code points;
    - [str()] of a float, a list or a dict goes through [repr], whose result
      depends on the interpreter's float formatting and Unicode tables; such
      a rendering is kept as one opaque glyph of the text;
    - what the interpreter fixes when it starts, from the locale and from
      variables such as PYTHONIOENCODING and PYTHONINTMAXSTRDIGITS, is a
      [runtime]: which characters the output stream can encode, how many
      digits [int()] accepts, how deep the decoder may nest before the
      recursion limit.  [json_loads], [print], [main] and [run] are the
      functions of CPython 3.11 started the standard way: a strict UTF-8
      output stream, 4300 digits, a recursion limit of 1000;
    - failures of the operating system (an output stream that is closed or
      full, memory exhausted, a signal) are outside the model. *)

From Stdlib Require Import List NArith ZArith String Ascii Bool Lia DecimalString.
From Stdlib Require DecimalPos.
Import ListNotations.

Set Implicit Arguments.

(** ** Strings *)

Definition codepoint := N.
Definition pystr := list codepoint.

Definition chr (a : ascii) : codepoint := N_of_ascii a.
Arguments chr : simpl never.

(** A string literal of ASCII characters. *)
Definition lit (s : string) : pystr := map chr (list_ascii_of_string s).

Definition quote_mark : codepoint := 34%N.
Definition degree_sign : codepoint := 176%N.

(** A literal of JSON text, written with an apostrophe for each double
    quote. *)
Definition json_lit (s : string) : pystr :=
  map (fun c => if N.eqb c 39 then quote_mark else c) (lit s).

Fixpoint str_eqb (a b : pystr) : bool :=
  match a, b with
  | [], [] => true
  | x :: a', y :: b' => N.eqb x y && str_eqb a' b'
  | _, _ => false
  end.

Fixpoint startswith (prefix s : pystr) : bool :=
  match prefix, s with
  | [], _ => true
  | x :: p', y :: s' => N.eqb x y && startswith p' s'
  | _ :: _, [] => false
  end.

(** A Unicode scalar value: a code point that is not a surrogate. *)
Definition scalar (c : codepoint) : bool :=
  (N.ltb c 55296 || (N.ltb 57343 c && N.ltb c 1114112))%bool.

(** ** Values produced by the JSON decoder *)

(** [float(lexeme)] for a number written with a fraction or an exponent, and
    the three constants the decoder accepts.  The float is kept as the text
    it was read from: two texts of one number, 1.5 and 1.50, stay apart
    here although Python compares the two floats equal. *)
Inductive pyfloat :=
| FloatOf (lexeme : pystr)
| FloatNaN
| FloatInf
| FloatNegInf.

#[local] Unset Elimination Schemes.
Inductive pyvalue :=
| PyNone
| PyBool (b : bool)
| PyInt (z : Z)
| PyFloat (f : pyfloat)
| PyStr (s : pystr)
| PyList (items : list pyvalue)
| PyDict (items : list (pystr * pyvalue)).
#[local] Set Elimination Schemes.

Definition is_dict (v : pyvalue) : bool :=
  match v with PyDict _ => true | _ => false end.

(** A dict keeps its keys in insertion order; assigning to a key that is
    present replaces the value in place. *)
Definition pydict := list (pystr * pyvalue).

Fixpoint dict_lookup (k : pystr) (d : pydict) : option pyvalue :=
  match d with
  | [] => None
  | (k', v) :: d' => if str_eqb k k' then Some v else dict_lookup k d'
  end.

Fixpoint dict_set (k : pystr) (v : pyvalue) (d : pydict) : pydict :=
  match d with
  | [] => [(k, v)]
  | (k', v') :: d' =>
      if str_eqb k k' then (k, v) :: d' else (k', v') :: dict_set k v d'
  end.

Definition dict_keys (d : pydict) : list pystr := map fst d.

(** The value reached by indexing nested dicts with the keys of [path]. *)
Fixpoint json_path (path : list pystr) (v : pyvalue) : option pyvalue :=
  match path with
  | [] => Some v
  | k :: path' =>
      match v with
      | PyDict d =>
          match dict_lookup k d with
          | Some v' => json_path path' v'
          | None => None
          end
      | _ => None
      end
  end.

(** ** Exceptions *)

(** The exceptions the script can end with.  [JSONDecodeError] is the
    decoder's own error for a text that is not JSON; [ValueError] stands for
    the plain [ValueError] that [int()] raises for a number with too many
    digits; [RecursionError] is raised when arrays and objects nest beyond
    the recursion limit; [AttributeError] by a call of [.get] on a value
    that has no such method; [UnicodeEncodeError] by the output stream for
    a character it cannot encode. *)
Inductive exception :=
| JSONDecodeError
| ValueError
| RecursionError
| AttributeError
| UnicodeEncodeError.

(** ** json.loads *)

Module Decoder.

Local Open Scope N_scope.

(** Outcome of scanning a prefix of the text: the value with the text that
    follows it, an exception, or the fuel of the model used up. *)
Inductive scan (A : Type) :=
| Scanned (a : A) (rest : pystr)
| Failed (e : exception)
| Starved.
Arguments Failed {A} e.
Arguments Starved {A}.

(** A text that is not JSON. *)
Abbreviation Malformed := (Failed JSONDecodeError).

Definition is_ws (c : codepoint) : bool :=
  (c =? 32) || (c =? 9) || (c =? 10) || (c =? 13).

Fixpoint skip_ws (s : pystr) : pystr :=
  match s with
  | c :: t => if is_ws c then skip_ws t else s
  | [] => []
  end.

Definition is_digit (c : codepoint) : bool := (48 <=? c) && (c <=? 57).

Definition hexval (c : codepoint) : option N :=
  if (48 <=? c) && (c <=? 57) then Some (c - 48)
  else if (97 <=? c) && (c <=? 102) then Some (c - 87)
  else if (65 <=? c) && (c <=? 70) then Some (c - 55)
  else None.

Definition hex4 (a b c d : codepoint) : option N :=
  match hexval a, hexval b, hexval c, hexval d with
  | Some x, Some y, Some z, Some w => Some (((x * 16 + y) * 16 + z) * 16 + w)
  | _, _, _, _ => None
  end.

Definition is_high_surrogate (u : N) : bool := (55296 <=? u) && (u <=? 56319).
Definition is_low_surrogate (u : N) : bool := (56320 <=? u) && (u <=? 57343).
Definition join_surrogates (hi lo : N) : N :=
  65536 + (hi - 55296) * 1024 + (lo - 56320).

(** The character a one-letter escape stands for. *)
Definition simple_escape (e : codepoint) : option codepoint :=
  if e =? quote_mark then Some quote_mark
  else if e =? chr "\" then Some (chr "\")
  else if e =? chr "/" then Some (chr "/")
  else if e =? chr "b" then Some 8
  else if e =? chr "f" then Some 12
  else if e =? chr "n" then Some 10
  else if e =? chr "r" then Some 13
  else if e =? chr "t" then Some 9
  else None.

Definition flush (pending : option codepoint) (acc : pystr) : pystr :=
  match pending with Some h => h :: acc | None => acc end.

(** The body of a string, after its opening quote.  [acc] holds the decoded
    characters in reverse; [pending] is a high surrogate that the escape just
    before wrote, which a low surrogate escape coming next completes. *)
Fixpoint scanstring (s : pystr) (acc : pystr) (pending : option codepoint)
  : scan pystr :=
  match s with
  | [] => Malformed
  | c :: t =>
      if c =? quote_mark then Scanned (rev (flush pending acc)) t
      else if c =? chr "\" then
        match t with
        | [] => Malformed
        | e :: t1 =>
            if e =? chr "u" then
              match t1 with
              | h1 :: h2 :: h3 :: h4 :: t2 =>
                  match hex4 h1 h2 h3 h4 with
                  | Some u =>
                      match pending with
                      | Some h =>
                          if is_low_surrogate u
                          then scanstring t2 (join_surrogates h u :: acc) None
                          else if is_high_surrogate u
                          then scanstring t2 (h :: acc) (Some u)
                          else scanstring t2 (u :: h :: acc) None
                      | None =>
                          if is_high_surrogate u
                          then scanstring t2 acc (Some u)
                          else scanstring t2 (u :: acc) None
                      end
                  | None => Malformed
                  end
              | _ => Malformed
              end
            else
              match simple_escape e with
              | Some x => scanstring t1 (x :: flush pending acc) None
              | None => Malformed
              end
        end
      else if c <? 32 then Malformed
      else scanstring t (c :: flush pending acc) None
  end.

(** Longest run of decimal digits at the head of the text. *)
Fixpoint span_digits (s : pystr) : pystr * pystr :=
  match s with
  | c :: t =>
      if is_digit c then let (ds, r) := span_digits t in (c :: ds, r)
      else ([], s)
  | [] => ([], [])
  end.

(** Integer part: a single 0, or a nonzero digit followed by digits. *)
Definition span_integer (s : pystr) : option (pystr * pystr) :=
  match s with
  | c :: t =>
      if c =? 48 then Some ([c], t)
      else if is_digit c then let (ds, r) := span_digits t in Some (c :: ds, r)
      else None
  | [] => None
  end.

(** Fraction: a dot followed by at least one digit, else nothing. *)
Definition span_fraction (s : pystr) : pystr * pystr :=
  match s with
  | c :: t =>
      if c =? chr "." then
        match span_digits t with
        | ([], _) => ([], s)
        | (ds, r) => (c :: ds, r)
        end
      else ([], s)
  | [] => ([], [])
  end.

(** Exponent: e or E, an optional sign, at least one digit, else nothing. *)
Definition span_exponent (s : pystr) : pystr * pystr :=
  match s with
  | c :: t =>
      if (c =? chr "e") || (c =? chr "E") then
        match t with
        | g :: t1 =>
            if (g =? chr "-") || (g =? chr "+") then
              match span_digits t1 with
              | ([], _) => ([], s)
              | (ds, r) => (c :: g :: ds, r)
              end
            else
              match span_digits t with
              | ([], _) => ([], s)
              | (ds, r) => (c :: ds, r)
              end
        | [] => ([], s)
        end
      else ([], s)
  | [] => ([], [])
  end.

Definition int_of_digits (ds : pystr) : Z :=
  fold_left (fun acc d => (10 * acc + Z.of_N (d - 48))%Z) ds 0%Z.

(** [int()] refuses a text of more than [lim] digits, the sign not counted;
    a limit of 0 switches the check off. *)
Definition too_long (lim : nat) (ds : pystr) : bool :=
  negb (Nat.eqb lim 0) && Nat.ltb lim (List.length ds).

(** A number: an integer goes through [int()], a fraction or an exponent
    makes a [float], which has no limit on its digits. *)
Definition match_number (lim : nat) (s : pystr) : scan pyvalue :=
  let (neg, body) :=
    match s with
    | c :: t => if c =? chr "-" then (true, t) else (false, s)
    | [] => (false, s)
    end in
  match span_integer body with
  | None => Malformed
  | Some (ip, r1) =>
      let (fp, r2) := span_fraction r1 in
      let (ep, r3) := span_exponent r2 in
      match fp, ep with
      | [], [] =>
          if too_long lim ip then Failed ValueError
          else
            let n := int_of_digits ip in
            Scanned (PyInt (if neg then (- n)%Z else n)) r3
      | _, _ =>
          Scanned
            (PyFloat (FloatOf ((if neg then [chr "-"] else []) ++ ip ++ fp ++ ep)))
            r3
      end
  end.

(** One JSON term at the head of the text, with the loops over the elements
    of an array and the members of an object.  [room] counts the arrays and
    objects that may still be entered before the recursion limit; the
    scanner checks it on the opening bracket, before it looks further. *)
Fixpoint scan_once (lim fuel room : nat) (s : pystr) : scan pyvalue :=
  match fuel with
  | O => Starved
  | S fuel' =>
      match s with
      | [] => Malformed
      | c :: t =>
          if c =? quote_mark then
            match scanstring t [] None with
            | Scanned str r => Scanned (PyStr str) r
            | Failed e => Failed e
            | Starved => Starved
            end
          else if c =? chr "{" then
            match room with
            | O => Failed RecursionError
            | S room' =>
                match skip_ws t with
                | c1 :: r =>
                    if c1 =? chr "}" then Scanned (PyDict []) r
                    else object_members lim fuel' room' (c1 :: r) []
                | [] => Malformed
                end
            end
          else if c =? chr "[" then
            match room with
            | O => Failed RecursionError
            | S room' =>
                match skip_ws t with
                | c1 :: r =>
                    if c1 =? chr "]" then Scanned (PyList []) r
                    else array_items lim fuel' room' (c1 :: r) []
                | [] => Malformed
                end
            end
          else if startswith (lit "null") s then Scanned PyNone (skipn 4 s)
          else if startswith (lit "true") s then Scanned (PyBool true) (skipn 4 s)
          else if startswith (lit "false") s then Scanned (PyBool false) (skipn 5 s)
          else if startswith (lit "NaN") s then Scanned (PyFloat FloatNaN) (skipn 3 s)
          else if startswith (lit "Infinity") s
          then Scanned (PyFloat FloatInf) (skipn 8 s)
          else if startswith (lit "-Infinity") s
          then Scanned (PyFloat FloatNegInf) (skipn 9 s)
          else match_number lim s
      end
  end

with array_items (lim fuel room : nat) (s : pystr) (acc : list pyvalue)
  : scan pyvalue :=
  match fuel with
  | O => Starved
  | S fuel' =>
      match scan_once lim fuel' room s with
      | Scanned v r =>
          match skip_ws r with
          | c :: t =>
              if c =? chr "]" then Scanned (PyList (rev (v :: acc))) t
              else if c =? chr ","
              then array_items lim fuel' room (skip_ws t) (v :: acc)
              else Malformed
          | [] => Malformed
          end
      | Failed e => Failed e
      | Starved => Starved
      end
  end

with object_members (lim fuel room : nat) (s : pystr) (acc : pydict)
  : scan pyvalue :=
  match fuel with
  | O => Starved
  | S fuel' =>
      match s with
      | c :: t =>
          if c =? quote_mark then
            match scanstring t [] None with
            | Scanned key r =>
                match skip_ws r with
                | c2 :: r2 =>
                    if c2 =? chr ":" then
                      match scan_once lim fuel' room (skip_ws r2) with
                      | Scanned v r3 =>
                          match skip_ws r3 with
                          | c3 :: r4 =>
                              if c3 =? chr "}"
                              then Scanned (PyDict (dict_set key v acc)) r4
                              else if c3 =? chr ","
                              then object_members lim fuel' room (skip_ws r4)
                                     (dict_set key v acc)
                              else Malformed
                          | [] => Malformed
                          end
                      | Failed e => Failed e
                      | Starved => Starved
                      end
                    else Malformed
                | [] => Malformed
                end
            | Failed e => Failed e
            | Starved => Starved
            end
          else Malformed
      | [] => Malformed
      end
  end.

(** Fuel that any text of this length can use: two calls per character. *)
Definition fuel_for (s : pystr) : nat := (2 * List.length s + 1)%nat.

(** [json.loads(s)] on a [str]: a byte order mark is refused, white space
    may surround the single term, nothing else may follow it.  A
    [ValueError] of [int()] and a [RecursionError] pass through as they
    are.  The fuel is never used up (lemma [json_loads_fed]), so the last
    case is dead. *)
Definition loads (lim room : nat) (s : pystr) : exception + pyvalue :=
  if startswith [65279] s then inl JSONDecodeError
  else
    match scan_once lim (fuel_for s) room (skip_ws s) with
    | Scanned v r =>
        match skip_ws r with
        | [] => inr v
        | _ :: _ => inl JSONDecodeError
        end
    | Failed e => inl e
    | Starved => inl JSONDecodeError
    end.

End Decoder.

(** ** Text written by the program *)

(** A character, or the rendering [str(v)] of a float, list or dict. *)
Inductive glyph :=
| Ch (c : codepoint)
| StrOf (v : pyvalue).

Definition pytext := list glyph.

Definition chars (s : pystr) : pytext := map Ch s.

Definition newline : glyph := Ch 10%N.

(** [str(z)] for an [int]. *)
Definition decimal (z : Z) : pystr := lit (NilZero.string_of_int (Z.to_int z)).

(** [format(v)] with an empty format specification, what an f-string field
    [{v}] expands to.  The script formats decoded values only: their
    integers are within the digit limit of [str()], which is the one of
    [int()], and they nest no deeper than [repr] can walk, so the rendering
    does not raise. *)
Definition format_value (v : pyvalue) : pytext :=
  match v with
  | PyStr s => chars s
  | PyNone => chars (lit "None")
  | PyBool true => chars (lit "True")
  | PyBool false => chars (lit "False")
  | PyInt z => chars (decimal z)
  | PyFloat _ | PyList _ | PyDict _ => [StrOf v]
  end.

(** ** json.dumps *)

Module Encoder.

Local Open Scope N_scope.

Definition hex_digit (n : N) : codepoint :=
  if n <? 10 then 48 + n else 87 + n.

Definition u_escape (c : N) : pystr :=
  [chr "\"; chr "u"; hex_digit (c / 4096 mod 16); hex_digit (c / 256 mod 16);
   hex_digit (c / 16 mod 16); hex_digit (c mod 16)].

(** The default encoder escapes everything outside printable ASCII. *)
Definition escape_char (c : codepoint) : pystr :=
  if c =? quote_mark then [chr "\"; quote_mark]
  else if c =? chr "\" then [chr "\"; chr "\"]
  else if c =? 10 then [chr "\"; chr "n"]
  else if c =? 13 then [chr "\"; chr "r"]
  else if c =? 9 then [chr "\"; chr "t"]
  else if c =? 8 then [chr "\"; chr "b"]
  else if c =? 12 then [chr "\"; chr "f"]
  else if (32 <=? c) && (c <=? 126) then [c]
  else if c <? 65536 then u_escape c
  else u_escape (55296 + (c - 65536) / 1024)
         ++ u_escape (56320 + (c - 65536) mod 1024).

Definition encode_str (s : pystr) : pystr :=
  quote_mark :: flat_map escape_char s ++ [quote_mark].

(** Items are separated by a comma and a space, a key from its value by a
    colon and a space. *)
Fixpoint encode (v : pyvalue) : pytext :=
  match v with
  | PyNone => chars (lit "null")
  | PyBool true => chars (lit "true")
  | PyBool false => chars (lit "false")
  | PyInt z => chars (decimal z)
  | PyFloat FloatNaN => chars (lit "NaN")
  | PyFloat FloatInf => chars (lit "Infinity")
  | PyFloat FloatNegInf => chars (lit "-Infinity")
  | PyFloat (FloatOf _) => [StrOf v]
  | PyStr s => chars (encode_str s)
  | PyList items =>
      chars (lit "[")
        ++ (fix elements (l : list pyvalue) : pytext :=
              match l with
              | [] => []
              | x :: t =>
                  encode x
                    ++ match t with
                       | [] => []
                       | _ :: _ => chars (lit ", ") ++ elements t
                       end
              end) items
        ++ chars (lit "]")
  | PyDict items =>
      chars (lit "{")
        ++ (fix members (l : list (pystr * pyvalue)) : pytext :=
              match l with
              | [] => []
              | (k, x) :: t =>
                  chars (encode_str k) ++ chars (lit ": ") ++ encode x
                    ++ match t with
                       | [] => []
                       | _ :: _ => chars (lit ", ") ++ members t
                       end
              end) items
        ++ chars (lit "}")
  end.

End Encoder.

Definition json_dumps := Encoder.encode.

(** ** The interpreter *)

(** What the interpreter fixes when it starts. *)
Record runtime := mkRuntime {
  (** what the encoding and the error handler of standard output can
      write; *)
  can_write : glyph -> bool;
  (** [sys.get_int_max_str_digits()]; *)
  max_str_digits : nat;
  (** how many arrays and objects [json.loads], called from the top level
      of a script, may nest before the recursion limit is reached. *)
  recursion_room : nat
}.

(** UTF-8 with the [strict] error handler encodes every Unicode scalar
    value and no surrogate.  A rendering by [repr] has its surrogates
    written as escapes, so it can always be encoded. *)
Definition utf8_strict (g : glyph) : bool :=
  match g with
  | Ch c => scalar c
  | StrOf _ => true
  end.


(** CPython 3.11 in a UTF-8 locale, nothing to change its defaults in the
    environment: at most 4300 digits, a recursion limit of 1000, of which
    the frames around the scanner leave 995. *)
Definition default_runtime : runtime := mkRuntime utf8_strict 4300 995.


Definition json_loads_in (rt : runtime) (s : pystr) : exception + pyvalue :=
  Decoder.loads (max_str_digits rt) (recursion_room rt) s.

Definition json_loads (s : pystr) : exception + pyvalue :=
  json_loads_in default_runtime s.

(** The stream can encode the whole text. *)
Definition writable (rt : runtime) (t : pytext) : bool :=
  forallb (can_write rt) t.

(** ** The process around the script *)

(** What the script itself could observe or change besides its arguments:
    the environment variables and the files within its reach, through
    [os.environ] and [open], and the two output streams.  What the
    interpreter took from the environment when it started is in the
    [runtime]. *)
Record world := mkWorld {
  environ : list (pystr * pystr);
  files : list (pystr * pystr);
  stdout : pytext;
  stderr : list exception
}.

(** A computation may read and change the world and may raise. *)
Definition io (A : Type) : Type := world -> (exception + A) * world.

Definition ret {A : Type} (a : A) : io A := fun w => (inr a, w).

Definition bind {A B : Type} (m : io A) (k : A -> io B) : io B :=
  fun w =>
    match m w with
    | (inr a, w') => k a w'
    | (inl e, w') => (inl e, w')
    end.

(** A call that returns or raises without touching the world. *)
Definition call {A : Type} (r : exception + A) : io A := fun w => (r, w).

Notation "x <- m ;; k" := (bind m (fun x => k))
  (at level 61, m at next level, right associativity).

(** The world after [print(t)]: the text and a line end, appended to
    standard output. *)
Definition printed (t : pytext) (w : world) : world :=
  mkWorld (environ w) (files w) (stdout w ++ t ++ [newline]) (stderr w).

(** [sys.stdout.write(t)]: the stream encodes the text it is given as a
    whole, and raises with nothing written when a character has no
    encoding. *)
Definition write_in (rt : runtime) (t : pytext) : io unit :=
  fun w =>
    if writable rt t
    then (inr tt, mkWorld (environ w) (files w) (stdout w ++ t) (stderr w))
    else (inl UnicodeEncodeError, w).

(** [print(t)] writes the text, then the line end. *)
Definition print_in (rt : runtime) (t : pytext) : io unit :=
  _ <- write_in rt t ;; write_in rt [newline].

Definition print (t : pytext) : io unit := print_in default_runtime t.

(** The interpreter reports an exception nobody caught on the error stream. *)
Definition traceback (e : exception) (w : world) : world :=
  mkWorld (environ w) (files w) (stdout w) (stderr w ++ [e]).

(** ** weather.py *)

(** [args.get(key, default)]: only a dict has the method. *)
Definition py_get (obj : pyvalue) (key : pystr) (default : pyvalue)
  : exception + pyvalue :=
  match obj with
  | PyDict d =>
      inr (match dict_lookup key d with Some v => v | None => default end)
  | _ => inl AttributeError
  end.

(** The body is a single f-string: it returns, and touches nothing. *)
Definition get_weather (location : pyvalue) : io pytext :=
  ret (chars (lit "The weather in ") ++ format_value location
         ++ chars (lit " is sunny and 72" ++ [degree_sign] ++ lit "F")).

Definition schema : pyvalue :=
  PyDict
    [(lit "title", PyStr (lit "get_weather"));
     (lit "description", PyStr (lit "Get the current weather for a location"));
     (lit "type", PyStr (lit "object"));
     (lit "properties",
      PyDict
        [(lit "location",
          PyDict
            [(lit "type", PyStr (lit "string"));
             (lit "description", PyStr (lit "The location to get weather for"))])]);
     (lit "required", PyList [PyStr (lit "location")])].

Definition usage : pystr :=
  lit "Usage: weather.py --schema | weather.py --execute '{"
    ++ [quote_mark] ++ lit "location" ++ [quote_mark] ++ lit ": "
    ++ [quote_mark] ++ lit "New York" ++ [quote_mark] ++ lit "}'".

(** [sys.argv[i]]; every use is guarded by a test of [len(sys.argv)]. *)
Definition arg (argv : list pystr) (i : nat) : pystr := nth i argv [].

Definition main_in (rt : runtime) (argv : list pystr) : io unit :=
  if Nat.ltb 1 (List.length argv) && str_eqb (arg argv 1) (lit "--schema") then
    print_in rt (json_dumps schema)
  else if Nat.ltb 2 (List.length argv) && str_eqb (arg argv 1) (lit "--execute") then
    args <- call (json_loads_in rt (arg argv 2)) ;;
    location <- call (py_get args (lit "location") (PyStr (lit "unknown"))) ;;
    result <- get_weather location ;;
    print_in rt result
  else
    print_in rt (chars usage).

Definition main (argv : list pystr) : io unit := main_in default_runtime argv.

(** The line [--schema] prints. *)
Definition schema_line : pystr :=
  json_lit "{'title': 'get_weather', 'description': 'Get the current weather for a location', 'type': 'object', 'properties': {'location': {'type': 'string', 'description': 'The location to get weather for'}}, 'required': ['location']}".

(** The sentence for a location given as text. *)
Definition sentence (location : pystr) : pystr :=
  lit "The weather in " ++ location ++ lit " is sunny and 72"
    ++ [degree_sign] ++ lit "F".

(** The text [get_weather] returns for a location of any type. *)
Definition weather_text (location : pyvalue) : pytext :=
  chars (lit "The weather in ") ++ format_value location
    ++ chars (lit " is sunny and 72" ++ [degree_sign] ++ lit "F").


(** A process that has written nothing yet, in an empty environment. *)
Definition idle : world := mkWorld [] [] [] [].

(** How the process ends: exit status 0 when the script ran to its end, 1
    with a report after an uncaught exception. *)
Definition finish (r : (exception + unit) * world) : Z * world :=
  match r with
  | (inr _, w') => (0%Z, w')
  | (inl e, w') => (1%Z, traceback e w')
  end.

(** Running the script. *)
Definition run_in (rt : runtime) (argv : list pystr) (w : world) : Z * world :=
  finish (main_in rt argv w).

Definition run (argv : list pystr) (w : world) : Z * world :=
  run_in default_runtime argv w.

(** The execute branch reads key [k] when two argument objects that agree
    on every other key can make two runs differ. *)
Definition reads_key (k : pystr) : Prop :=
  exists (p1 p2 : pystr) (d1 d2 : pydict) (w : world),
    json_loads p1 = inr (PyDict d1)
    /\ json_loads p2 = inr (PyDict d2)
    /\ (forall k' : pystr, k' <> k -> dict_lookup k' d1 = dict_lookup k' d2)
    /\ run [lit "weather.py"; lit "--execute"; p1] w
       <> run [lit "weather.py"; lit "--execute"; p2] w.

(** The two tests of the dispatcher. *)
Definition schema_mode (argv : list pystr) : bool :=
  Nat.ltb 1 (List.length argv) && str_eqb (arg argv 1) (lit "--schema").

Definition execute_mode (argv : list pystr) : bool :=
  Nat.ltb 2 (List.length argv) && str_eqb (arg argv 1) (lit "--execute").

(** A character that stands for itself inside a JSON string: no control
    character, no double quote, no backslash. *)
Definition plain_char (c : codepoint) : bool :=
  (N.leb 32 c && negb (N.eqb c quote_mark) && negb (N.eqb c (chr "\")))%bool.

(** The JSON text of an object that maps "location" to the string [s]. *)
Definition location_payload (s : pystr) : pystr :=
  json_lit "{'location': '" ++ s ++ json_lit "'}".

(** A run of JSON white space: spaces, tabs, line feeds, carriage returns. *)
Definition blank (s : pystr) : bool := forallb Decoder.is_ws s.

(** A scan of a text, seen from a longer text that continues with [post]. *)
Definition followed_by {A : Type} (post : pystr) (r : Decoder.scan A)
  : Decoder.scan A :=
  match r with
  | Decoder.Scanned a rest => Decoder.Scanned a (rest ++ post)
  | Decoder.Failed e => Decoder.Failed e
  | Decoder.Starved => Decoder.Starved
  end.

(** The JSON text of an object whose values are strings, as a caller would
    write it: members separated by a comma and a space, a key from its value
    by a colon and a space. *)
Definition member_text (m : pystr * pystr) : pystr :=
  quote_mark :: fst m
    ++ quote_mark :: chr ":" :: chr " " :: quote_mark :: snd m ++ [quote_mark].

Fixpoint members_text (ms : list (pystr * pystr)) : pystr :=
  match ms with
  | [] => []
  | m :: ms' =>
      member_text m
        ++ match ms' with
           | [] => []
           | _ :: _ => chr "," :: chr " " :: members_text ms'
           end
  end.

Definition object_text (ms : list (pystr * pystr)) : pystr :=
  chr "{" :: members_text ms ++ [chr "}"].

(** The value of the last member named [k]. *)
Fixpoint last_value (k : pystr) (ms : list (pystr * pystr)) : option pystr :=
  match ms with
  | [] => None
  | (k', v) :: ms' =>
      match last_value k ms' with
      | Some v' => Some v'
      | None => if str_eqb k k' then Some v else None
      end
  end.

(** All keys and values are made of plain characters. *)
Definition plain_members (ms : list (pystr * pystr)) : bool :=
  forallb (fun m => forallb plain_char (fst m) && forallb plain_char (snd m)) ms.

(** The JSON text of an object that maps "location" to the string [s],
    the string written as [json.dumps] writes it. *)
Definition encoded_location_payload (s : pystr) : pystr :=
  json_lit "{'location': " ++ Encoder.encode_str s ++ [chr "}"].

(** What may follow a number in a text without becoming part of it: the
    end of the text, or a character that is neither a digit, a dot nor an
    exponent letter. *)
Definition delimited (rest : pystr) : bool :=
  match rest with
  | [] => true
  | c :: _ =>
      (negb (Decoder.is_digit c) && negb (N.eqb c (chr "."))
       && negb (N.eqb c (chr "e")) && negb (N.eqb c (chr "E")))%bool
  end.

(** The characters of a text, opaque renderings left out. *)
Definition codes (t : pytext) : pystr :=
  flat_map (fun g => match g with Ch c => [c] | StrOf _ => [] end) t.

(** No key occurs twice. *)
Fixpoint distinct (ks : list pystr) : bool :=
  match ks with
  | [] => true
  | k :: ks' => negb (existsb (str_eqb k) ks') && distinct ks'
  end.

(** Values a caller can send through JSON unchanged: no float, strings and
    keys made of Unicode scalar values, no key twice in one dict. *)
Fixpoint portable (v : pyvalue) : bool :=
  match v with
  | PyNone | PyBool _ | PyInt _ => true
  | PyFloat _ => false
  | PyStr s => forallb scalar s
  | PyList items => forallb portable items
  | PyDict items =>
      distinct (map fst items)
      && forallb (fun kv => forallb scalar (fst kv) && portable (snd kv)) items
  end.

(** The comma-separated texts of the elements of a list and of the members
    of a dict, as [json.dumps] writes them between the brackets. *)
Fixpoint encode_elements (l : list pyvalue) : pytext :=
  match l with
  | [] => []
  | x :: t =>
      json_dumps x
        ++ match t with
           | [] => []
           | _ :: _ => chars (lit ", ") ++ encode_elements t
           end
  end.

Fixpoint encode_members (l : pydict) : pytext :=
  match l with
  | [] => []
  | (k, x) :: t =>
      chars (Encoder.encode_str k) ++ chars (lit ": ") ++ json_dumps x
        ++ match t with
           | [] => []
           | _ :: _ => chars (lit ", ") ++ encode_members t
           end
  end.

(** The value stays within the limits of the decoder: it nests at most
    [room] arrays and objects deep, and none of its integers has more than
    [lim] digits. *)
Fixpoint fits (lim room : nat) (v : pyvalue) {struct v} : bool :=
  match v with
  | PyInt z => negb (Decoder.too_long lim (decimal (Z.abs z)))
  | PyList items =>
      match room with
      | O => false
      | S room' => forallb (fits lim room') items
      end
  | PyDict items =>
      match room with
      | O => false
      | S room' => forallb (fun kv => fits lim room' (snd kv)) items
      end
  | PyNone | PyBool _ | PyFloat _ | PyStr _ => true
  end.

Definition fits_in (rt : runtime) (v : pyvalue) : bool :=
  fits (max_str_digits rt) (recursion_room rt) v.

(** The decoder, given enough fuel, reads the text of [v] back as [v],
    whatever delimited text follows it. *)
Definition reads_back (lim room : nat) (v : pyvalue) : Prop :=
  forall rest : pystr,
    delimited rest = true ->
    exists N : nat,
      forall fuel : nat,
        (N <= fuel)%nat ->
        Decoder.scan_once lim fuel room (codes (json_dumps v) ++ rest)
        = Decoder.Scanned v rest.

(** The JSON text of an object that maps "location" to the integer [z]. *)
Definition integer_location_payload (z : Z) : pystr :=
  json_lit "{'location': " ++ decimal z ++ [chr "}"].

(** * Facts about the decoder *)

Module DecoderFacts.
Import Decoder.

Ltac split_if H :=
  match type of H with
  | context [if ?b then _ else _] => destruct b eqn:?; cbv iota in H
  end.

Lemma skip_ws_length (s : pystr) : (List.length (skip_ws s) <= List.length s)%nat.
Proof.
  induction s as [|c t IH]; simpl; [lia|].
  destruct (is_ws c); simpl; lia.
Qed.

Lemma scanstring_length (s : pystr) :
  forall acc pending k r,
    scanstring s acc pending = Scanned k r -> (List.length r < List.length s)%nat.
Proof.
  induction s as [s IH] using (well_founded_induction
    (Wf_nat.well_founded_ltof _ (@List.length codepoint))).
  unfold Wf_nat.ltof in IH.
  intros acc pending k r H.
  destruct s as [|c t]; simpl in H; [discriminate|].
  split_if H.
  { injection H as _ <-. simpl. lia. }
  split_if H.
  - destruct t as [|e t1]; [discriminate|].
    split_if H.
    + destruct t1 as [|h1 [|h2 [|h3 [|h4 t2]]]]; try discriminate.
      destruct (hex4 h1 h2 h3 h4) as [u|]; [|discriminate].
      destruct pending as [h|]; repeat split_if H;
        apply IH in H; simpl in *; lia.
    + destruct (simple_escape e); [|discriminate].
      apply IH in H; simpl in *; lia.
  - split_if H; [discriminate|].
    apply IH in H; simpl in *; lia.
Qed.

Lemma span_digits_length (s : pystr) :
  forall ds r, span_digits s = (ds, r) -> (List.length r <= List.length s)%nat.
Proof.
  induction s as [|c t IH]; simpl; intros ds r H.
  - injection H as _ <-. simpl. lia.
  - destruct (is_digit c).
    + destruct (span_digits t) as [ds' r'] eqn:E.
      injection H as _ <-. specialize (IH _ _ eq_refl). lia.
    + injection H as _ <-. simpl. lia.
Qed.

Lemma span_integer_length (s ip r : pystr) :
  span_integer s = Some (ip, r) -> (List.length r < List.length s)%nat.
Proof.
  destruct s as [|c t]; simpl; [discriminate|]. intros H.
  split_if H.
  - injection H as _ <-. lia.
  - split_if H; [|discriminate].
    destruct (span_digits t) as [ds r'] eqn:E.
    injection H as _ <-. apply span_digits_length in E. lia.
Qed.

Lemma span_fraction_length (s fp r : pystr) :
  span_fraction s = (fp, r) -> (List.length r <= List.length s)%nat.
Proof.
  destruct s as [|c t]; simpl; intros H.
  - injection H as _ <-. simpl. lia.
  - split_if H.
    + destruct (span_digits t) as [ds r'] eqn:E.
      apply span_digits_length in E.
      destruct ds; injection H as _ <-; simpl; lia.
    + injection H as _ <-. simpl. lia.
Qed.

Lemma span_exponent_length (s ep r : pystr) :
  span_exponent s = (ep, r) -> (List.length r <= List.length s)%nat.
Proof.
  unfold span_exponent. intros H.
  destruct s as [|c t]; cbv beta iota in H.
  - injection H as _ <-. simpl. lia.
  - split_if H.
    + destruct t as [|g t1]; cbv beta iota in H.
      * injection H as _ <-. simpl. lia.
      * split_if H.
        -- destruct (span_digits t1) as [ds r'] eqn:E.
           apply span_digits_length in E.
           destruct ds; injection H as _ <-; simpl; lia.
        -- destruct (span_digits (g :: t1)) as [ds r'] eqn:E.
           apply span_digits_length in E.
           destruct ds; injection H as _ <-; simpl in E |- *; lia.
    + injection H as _ <-. simpl. lia.
Qed.

Lemma match_number_length (lim : nat) (s : pystr) (v : pyvalue) (r : pystr) :
  match_number lim s = Scanned v r -> (List.length r < List.length s)%nat.
Proof.
  unfold match_number. intros H.
  set (p := match s with
            | c :: t => if N.eqb c (chr "-") then (true, t) else (false, s)
            | [] => (false, s)
            end) in H.
  assert (Hp : (List.length (snd p) <= List.length s)%nat).
  { subst p. destruct s as [|c t]; simpl; [lia|].
    destruct (N.eqb c (chr "-")); simpl; lia. }
  destruct p as [neg body]. simpl in Hp.
  destruct (span_integer body) as [[ip r1]|] eqn:E1; [|discriminate].
  apply span_integer_length in E1.
  destruct (span_fraction r1) as [fp r2] eqn:E2.
  apply span_fraction_length in E2.
  destruct (span_exponent r2) as [ep r3] eqn:E3.
  apply span_exponent_length in E3.
  destruct fp, ep; try split_if H; try discriminate; injection H as _ <-; lia.
Qed.

Lemma match_number_fed (lim : nat) (s : pystr) : match_number lim s <> Starved.
Proof.
  unfold match_number.
  destruct (match s with
            | c :: t => if N.eqb c (chr "-") then (true, t) else (false, s)
            | [] => (false, s)
            end) as [neg body].
  destruct (span_integer body) as [[ip r1]|]; [|discriminate].
  destruct (span_fraction r1) as [fp r2].
  destruct (span_exponent r2) as [ep r3].
  destruct fp, ep; try destruct (too_long lim ip); discriminate.
Qed.

Lemma scanstring_fed (s : pystr) :
  forall acc pending, scanstring s acc pending <> Starved.
Proof.
  induction s as [s IH] using (well_founded_induction
    (Wf_nat.well_founded_ltof _ (@List.length codepoint))).
  unfold Wf_nat.ltof in IH.
  intros acc pending H.
  destruct s as [|c t]; simpl in H; [discriminate|].
  split_if H; [discriminate|].
  split_if H.
  - destruct t as [|e t1]; [discriminate|].
    split_if H.
    + destruct t1 as [|h1 [|h2 [|h3 [|h4 t2]]]]; try discriminate.
      destruct (hex4 h1 h2 h3 h4) as [u|]; [|discriminate].
      destruct pending as [h|]; repeat split_if H;
        apply IH in H; simpl in *; auto; lia.
    + destruct (simple_escape e); [|discriminate].
      apply IH in H; simpl in *; auto; lia.
  - split_if H; [discriminate|].
    apply IH in H; simpl in *; auto; lia.
Qed.

Lemma scanstring_fails (s : pystr) :
  forall acc pending e,
    scanstring s acc pending = Failed e -> e = JSONDecodeError.
Proof.
  induction s as [s IH] using (well_founded_induction
    (Wf_nat.well_founded_ltof _ (@List.length codepoint))).
  unfold Wf_nat.ltof in IH.
  intros acc pending e0 H.
  destruct s as [|c t]; simpl in H; [congruence|].
  split_if H; [discriminate|].
  split_if H.
  - destruct t as [|e t1]; [congruence|].
    split_if H.
    + destruct t1 as [|h1 [|h2 [|h3 [|h4 t2]]]]; try congruence.
      destruct (hex4 h1 h2 h3 h4) as [u|]; [|congruence].
      destruct pending as [h|]; repeat split_if H;
        apply IH in H; simpl in *; auto; lia.
    + destruct (simple_escape e); [|congruence].
      apply IH in H; simpl in *; auto; lia.
  - split_if H; [congruence|].
    apply IH in H; simpl in *; auto; lia.
Qed.

(** The exceptions of the scanner. *)
Local Abbreviation scanner_error e :=
  (e = JSONDecodeError \/ e = ValueError \/ e = RecursionError).

Lemma match_number_fails (lim : nat) (s : pystr) (e : exception) :
  match_number lim s = Failed e -> e = JSONDecodeError \/ e = ValueError.
Proof.
  unfold match_number.
  destruct (match s with
            | c :: t => if N.eqb c (chr "-") then (true, t) else (false, s)
            | [] => (false, s)
            end) as [neg body].
  destruct (span_integer body) as [[ip r1]|]; [|intros H; left; congruence].
  destruct (span_fraction r1) as [fp r2].
  destruct (span_exponent r2) as [ep r3].
  destruct fp, ep; try discriminate.
  destruct (too_long lim ip); [|discriminate].
  intros H. right. congruence.
Qed.

Lemma skipn_cons_length (n : nat) (s : pystr) :
  s <> [] -> (List.length (skipn (S n) s) < List.length s)%nat.
Proof.
  destruct s as [|c t]; [congruence|]. intros _. simpl.
  pose proof (length_skipn n t). lia.
Qed.

#[local] Arguments skip_ws : simpl never.
#[local] Arguments scanstring : simpl never.
#[local] Arguments match_number : simpl never.
#[local] Arguments startswith : simpl never.
#[local] Arguments skipn : simpl never.
#[local] Arguments lit : simpl never.

Ltac skip_ws_bound :=
  repeat match goal with
         | E : skip_ws ?x = _ |- _ =>
             let L := fresh "L" in
             pose proof (skip_ws_length x) as L; rewrite E in L; clear E
         end.

Lemma scan_length (lim fuel : nat) :
  (forall room s v r, scan_once lim fuel room s = Scanned v r ->
                      (List.length r < List.length s)%nat) /\
  (forall room s acc v r, array_items lim fuel room s acc = Scanned v r ->
                          (List.length r < List.length s)%nat) /\
  (forall room s acc v r, object_members lim fuel room s acc = Scanned v r ->
                          (List.length r < List.length s)%nat).
Proof.
  induction fuel as [|fuel (IHs & IHa & IHo)].
  { repeat split; intros; discriminate. }
  repeat split.
  - intros room s v r H. simpl in H.
    destruct s as [|c t]; [discriminate|].
    split_if H.
    { destruct (scanstring t [] None) as [k r'|e|] eqn:E; try discriminate.
      apply scanstring_length in E. injection H as _ <-. simpl. lia. }
    split_if H.
    { destruct room as [|room']; [discriminate|].
      destruct (skip_ws t) as [|c1 r'] eqn:E; [discriminate|].
      skip_ws_bound. split_if H.
      - injection H as _ <-. simpl in *. lia.
      - apply IHo in H. simpl in *. lia. }
    split_if H.
    { destruct room as [|room']; [discriminate|].
      destruct (skip_ws t) as [|c1 r'] eqn:E; [discriminate|].
      skip_ws_bound. split_if H.
      - injection H as _ <-. simpl in *. lia.
      - apply IHa in H. simpl in *. lia. }
    repeat (split_if H;
            [injection H as _ <-; apply skipn_cons_length; discriminate|]).
    apply match_number_length in H. exact H.
  - intros room s acc v r H. simpl in H.
    destruct (scan_once lim fuel room s) as [v' r'|e|] eqn:E; try discriminate.
    apply IHs in E.
    destruct (skip_ws r') as [|c t] eqn:E'; [discriminate|].
    skip_ws_bound. split_if H.
    + injection H as _ <-. simpl in *. lia.
    + split_if H; [|discriminate].
      apply IHa in H. pose proof (skip_ws_length t). simpl in *. lia.
  - intros room s acc v r H. simpl in H.
    destruct s as [|c t]; [discriminate|].
    split_if H; [|discriminate].
    destruct (scanstring t [] None) as [k r1|e|] eqn:E1; try discriminate.
    apply scanstring_length in E1.
    destruct (skip_ws r1) as [|c2 r2] eqn:E2; [discriminate|].
    split_if H; [|discriminate].
    destruct (scan_once lim fuel room (skip_ws r2)) as [v' r3|e|] eqn:E3; try discriminate.
    apply IHs in E3. pose proof (skip_ws_length r2).
    destruct (skip_ws r3) as [|c3 r4] eqn:E4; [discriminate|].
    skip_ws_bound. split_if H.
    + injection H as _ <-. simpl in *. lia.
    + split_if H; [|discriminate].
      apply IHo in H. pose proof (skip_ws_length r4). simpl in *. lia.
Qed.

Lemma scan_fed (lim fuel : nat) :
  (forall room s, (2 * List.length s < fuel)%nat ->
                  scan_once lim fuel room s <> Starved) /\
  (forall room s acc, (2 * List.length s + 1 < fuel)%nat ->
                      array_items lim fuel room s acc <> Starved) /\
  (forall room s acc, (2 * List.length s < fuel)%nat ->
                      object_members lim fuel room s acc <> Starved).
Proof.
  induction fuel as [|fuel (IHs & IHa & IHo)].
  { repeat split; intros; lia. }
  repeat split.
  - intros room s Hf H. simpl in H.
    destruct s as [|c t]; [discriminate|]. simpl in Hf.
    split_if H.
    { destruct (scanstring t [] None) as [k r'|e|] eqn:E; try discriminate.
      revert E. apply scanstring_fed. }
    split_if H.
    { destruct room as [|room']; [discriminate|].
      destruct (skip_ws t) as [|c1 r'] eqn:E; [discriminate|].
      skip_ws_bound. split_if H; [discriminate|].
      revert H. apply IHo. simpl in *. lia. }
    split_if H.
    { destruct room as [|room']; [discriminate|].
      destruct (skip_ws t) as [|c1 r'] eqn:E; [discriminate|].
      skip_ws_bound. split_if H; [discriminate|].
      revert H. apply IHa. simpl in *. lia. }
    repeat (split_if H; [discriminate|]).
    revert H. apply match_number_fed.
  - intros room s acc Hf H. simpl in H.
    destruct (scan_once lim fuel room s) as [v' r'|e|] eqn:E; try discriminate.
    + apply (proj1 (scan_length lim fuel)) in E.
      destruct (skip_ws r') as [|c t] eqn:E'; [discriminate|].
      skip_ws_bound. split_if H; [discriminate|].
      split_if H; [|discriminate].
      revert H. apply IHa. pose proof (skip_ws_length t). simpl in *. lia.
    + revert E. apply IHs. lia.
  - intros room s acc Hf H. simpl in H.
    destruct s as [|c t]; [discriminate|]. simpl in Hf.
    split_if H; [|discriminate].
    destruct (scanstring t [] None) as [k r1|e|] eqn:E1; try discriminate.
    2:{ revert E1. apply scanstring_fed. }
    apply scanstring_length in E1.
    destruct (skip_ws r1) as [|c2 r2] eqn:E2; [discriminate|].
    split_if H; [|discriminate].
    skip_ws_bound. pose proof (skip_ws_length r2).
    destruct (scan_once lim fuel room (skip_ws r2)) as [v' r3|e|] eqn:E3; try discriminate.
    + apply (proj1 (scan_length lim fuel)) in E3.
      destruct (skip_ws r3) as [|c3 r4] eqn:E4; [discriminate|].
      skip_ws_bound. split_if H; [discriminate|].
      split_if H; [|discriminate].
      revert H. apply IHo. pose proof (skip_ws_length r4). simpl in *. lia.
    + revert E3. apply IHs. simpl in *. lia.
Qed.

Ltac settle H :=
  first [ discriminate H
        | injection H as <-; tauto ].

Lemma scan_fails (lim fuel : nat) :
  (forall room s e, scan_once lim fuel room s = Failed e -> scanner_error e) /\
  (forall room s acc e, array_items lim fuel room s acc = Failed e ->
                        scanner_error e) /\
  (forall room s acc e, object_members lim fuel room s acc = Failed e ->
                        scanner_error e).
Proof.
  induction fuel as [|fuel (IHs & IHa & IHo)].
  { repeat split; intros; discriminate. }
  repeat split.
  - intros room s e0 H. simpl in H.
    destruct s as [|c t]; [settle H|].
    split_if H.
    { destruct (scanstring t [] None) as [k r'|e|] eqn:E; try settle H.
      injection H as <-. apply scanstring_fails in E. left. exact E. }
    split_if H.
    { destruct room as [|room']; [settle H|].
      destruct (skip_ws t) as [|c1 r'] eqn:E; [settle H|].
      split_if H; [settle H|]. apply IHo in H. exact H. }
    split_if H.
    { destruct room as [|room']; [settle H|].
      destruct (skip_ws t) as [|c1 r'] eqn:E; [settle H|].
      split_if H; [settle H|]. apply IHa in H. exact H. }
    repeat (split_if H; [discriminate|]).
    apply match_number_fails in H. tauto.
  - intros room s acc e0 H. simpl in H.
    destruct (scan_once lim fuel room s) as [v' r'|e|] eqn:E; try settle H.
    + destruct (skip_ws r') as [|c t] eqn:E'; [settle H|].
      split_if H; [settle H|].
      split_if H; [|settle H].
      apply IHa in H. exact H.
    + injection H as <-. apply IHs in E. exact E.
  - intros room s acc e0 H. simpl in H.
    destruct s as [|c t]; [settle H|].
    split_if H; [|settle H].
    destruct (scanstring t [] None) as [k r1|e|] eqn:E1; try settle H.
    2:{ injection H as <-. apply scanstring_fails in E1. left. exact E1. }
    destruct (skip_ws r1) as [|c2 r2] eqn:E2; [settle H|].
    split_if H; [|settle H].
    destruct (scan_once lim fuel room (skip_ws r2)) as [v' r3|e|] eqn:E3;
      try settle H.
    + destruct (skip_ws r3) as [|c3 r4] eqn:E4; [settle H|].
      split_if H; [settle H|].
      split_if H; [|settle H].
      apply IHo in H. exact H.
    + injection H as <-. apply IHs in E3. exact E3.
Qed.

End DecoderFacts.

(** The decoder never runs out of fuel: a failure of [json_loads] is an
    exception of the scanner. *)
Lemma json_loads_fed (lim room : nat) (s : pystr) :
  Decoder.scan_once lim (Decoder.fuel_for s) room (Decoder.skip_ws s)
  <> Decoder.Starved.
Proof.
  apply (proj1 (DecoderFacts.scan_fed lim (Decoder.fuel_for s))).
  pose proof (DecoderFacts.skip_ws_length s).
  unfold Decoder.fuel_for. lia.
Qed.

(** The exceptions [json.loads] raises: its own [JSONDecodeError], the
    [ValueError] of [int()], and [RecursionError]. *)
Lemma json_loads_in_raises (rt : runtime) (s : pystr) (e : exception) :
  json_loads_in rt s = inl e ->
  e = JSONDecodeError \/ e = ValueError \/ e = RecursionError.
Proof.
  unfold json_loads_in, Decoder.loads.
  destruct (startswith _ s); [intros H; left; congruence|].
  destruct (Decoder.scan_once _ _ _ _) as [v r|e0|] eqn:E.
  - destruct (Decoder.skip_ws r); [discriminate|]. intros H. left. congruence.
  - intros H. injection H as <-.
    apply (proj1 (DecoderFacts.scan_fails _ _)) in E. exact E.
  - intros H. left. congruence.
Qed.

Lemma json_loads_raises (s : pystr) (e : exception) :
  json_loads s = inl e ->
  e = JSONDecodeError \/ e = ValueError \/ e = RecursionError.
Proof. apply json_loads_in_raises. Qed.

(** * Facts about strings and dicts *)

Lemma str_eqb_refl (a : pystr) : str_eqb a a = true.
Proof.
  induction a as [|x a IH]; simpl; [reflexivity|].
  rewrite N.eqb_refl. exact IH.
Qed.

Lemma str_eqb_eq (a b : pystr) : str_eqb a b = true <-> a = b.
Proof.
  split; [|intros ->; apply str_eqb_refl].
  revert b. induction a as [|x a IH]; intros [|y b] H; simpl in H;
    try discriminate; [reflexivity|].
  apply andb_true_iff in H. destruct H as [Hxy Hab].
  apply N.eqb_eq in Hxy. apply IH in Hab. congruence.
Qed.

Lemma str_eqb_neq (a b : pystr) : str_eqb a b = false <-> a <> b.
Proof.
  rewrite <- str_eqb_eq. destruct (str_eqb a b); split; congruence.
Qed.

Lemma dict_lookup_set_other (k k' : pystr) (v : pyvalue) (d : pydict) :
  k' <> k -> dict_lookup k' (dict_set k v d) = dict_lookup k' d.
Proof.
  intros Hne. induction d as [|[k0 v0] d IH]; simpl.
  - apply str_eqb_neq in Hne. rewrite Hne. reflexivity.
  - destruct (str_eqb k k0) eqn:E; simpl.
    + apply str_eqb_eq in E. subst k0.
      apply str_eqb_neq in Hne. rewrite Hne. reflexivity.
    + rewrite IH. reflexivity.
Qed.

Lemma dict_lookup_set_same (k : pystr) (v : pyvalue) (d : pydict) :
  dict_lookup k (dict_set k v d) = Some v.
Proof.
  induction d as [|[k0 v0] d IH]; simpl.
  - rewrite str_eqb_refl. reflexivity.
  - destruct (str_eqb k k0) eqn:E; simpl.
    + rewrite str_eqb_refl. reflexivity.
    + rewrite E. exact IH.
Qed.

(** * The output stream *)

Lemma writable_app (rt : runtime) (a b : pytext) :
  writable rt (a ++ b) = writable rt a && writable rt b.
Proof. unfold writable. apply forallb_app. Qed.

Lemma writable_chars (s : pystr) :
  writable default_runtime (chars s) = forallb scalar s.
Proof.
  unfold writable, chars. induction s as [|c s IH]; [reflexivity|].
  cbn [map forallb]. rewrite IH. reflexivity.
Qed.

(** A text that the stream encodes is printed with its line end; a text it
    cannot encode raises with nothing printed. *)
Lemma print_in_written (rt : runtime) (t : pytext) (w : world) :
  writable rt t = true ->
  can_write rt newline = true ->
  print_in rt t w = (inr tt, printed t w).
Proof.
  intros Ht Hn. unfold print_in, bind, write_in. rewrite Ht.
  unfold writable. simpl forallb. rewrite Hn. simpl.
  unfold printed. simpl. rewrite <- app_assoc. reflexivity.
Qed.

Lemma print_in_refused (rt : runtime) (t : pytext) (w : world) :
  writable rt t = false ->
  print_in rt t w = (inl UnicodeEncodeError, w).
Proof.
  intros Ht. unfold print_in, bind, write_in. rewrite Ht. reflexivity.
Qed.

Lemma print_outcome (t : pytext) (w : world) :
  finish (print t w)
  = if writable default_runtime t then (0%Z, printed t w)
    else (1%Z, traceback UnicodeEncodeError w).
Proof.
  unfold print. destruct (writable default_runtime t) eqn:E.
  - rewrite (print_in_written default_runtime t w E eq_refl). reflexivity.
  - rewrite (print_in_refused default_runtime t w E). reflexivity.
Qed.




(** * Decimal digits *)

Module DecimalFacts.

Lemma lit_cons (a : ascii) (s : string) : lit (String a s) = chr a :: lit s.
Proof. reflexivity. Qed.

Lemma uint_digits (d : Decimal.uint) :
  forallb Decoder.is_digit (lit (NilEmpty.string_of_uint d)) = true.
Proof.
  induction d; cbn [NilEmpty.string_of_uint]; try reflexivity;
    rewrite lit_cons; cbn [forallb]; rewrite IHd; reflexivity.
Qed.

Lemma decimal_pos (p : positive) :
  decimal (Z.pos p) = lit (NilEmpty.string_of_uint (Pos.to_uint p)).
Proof.
  unfold decimal. simpl Z.to_int. unfold NilZero.string_of_int, NilZero.string_of_uint.
  pose proof (DecimalPos.Unsigned.to_uint_nonnil p) as Hnn.
  destruct (Pos.to_uint p); try reflexivity. congruence.
Qed.

Lemma decimal_neg (p : positive) :
  decimal (Z.neg p) = chr "-" :: lit (NilEmpty.string_of_uint (Pos.to_uint p)).
Proof.
  unfold decimal. simpl Z.to_int. unfold NilZero.string_of_int, NilZero.string_of_uint.
  pose proof (DecimalPos.Unsigned.to_uint_nonnil p) as Hnn.
  destruct (Pos.to_uint p); try reflexivity. congruence.
Qed.

Lemma digit_scalar (c : codepoint) : Decoder.is_digit c = true -> scalar c = true.
Proof.
  unfold Decoder.is_digit, scalar. intros H.
  apply andb_true_iff in H. destruct H as [_ H]. apply N.leb_le in H.
  apply orb_true_iff. left. apply N.ltb_lt. lia.
Qed.

Lemma digits_scalar (s : pystr) :
  forallb Decoder.is_digit s = true -> forallb scalar s = true.
Proof.
  induction s as [|c s IH]; [reflexivity|]. cbn [forallb]. intros H.
  apply andb_true_iff in H. destruct H as [Hc Hs].
  rewrite (digit_scalar c Hc), (IH Hs). reflexivity.
Qed.

(** [str(z)] is made of ASCII characters. *)
Lemma decimal_scalar (z : Z) : forallb scalar (decimal z) = true.
Proof.
  destruct z as [|p|p].
  - reflexivity.
  - rewrite decimal_pos. apply digits_scalar, uint_digits.
  - rewrite decimal_neg. cbn [forallb].
    rewrite (digits_scalar _ (uint_digits (Pos.to_uint p))). reflexivity.
Qed.

End DecimalFacts.

(** The UTF-8 stream can write the sentence unless the location is a string
    that holds a surrogate. *)
Lemma weather_text_writable (v : pyvalue) :
  writable default_runtime (weather_text v)
  = match v with PyStr s => forallb scalar s | _ => true end.
Proof.
  unfold weather_text. rewrite !writable_app, !writable_chars.
  replace (forallb scalar (lit "The weather in ")) with true by reflexivity.
  replace (forallb scalar (lit " is sunny and 72" ++ [degree_sign] ++ lit "F"))
    with true by reflexivity.
  rewrite andb_true_r. cbn [andb].
  destruct v as [ |b|z|f|s|items|items]; try reflexivity.
  - destruct b; reflexivity.
  - cbn [format_value]. rewrite writable_chars. apply DecimalFacts.decimal_scalar.
  - cbn [format_value]. apply writable_chars.
Qed.

Lemma weather_text_sentence (s : pystr) :
  weather_text (PyStr s) = chars (sentence s).
Proof.
  unfold weather_text, format_value, sentence, chars.
  rewrite !map_app. reflexivity.
Qed.

(** * The three branches of the dispatcher *)

Lemma main_schema (rt : runtime) (prog : pystr) (rest : list pystr) :
  main_in rt (prog :: lit "--schema" :: rest) = print_in rt (json_dumps schema).
Proof.
  unfold main_in, arg. simpl List.length. simpl nth.
  rewrite str_eqb_refl. reflexivity.
Qed.

Lemma main_execute (rt : runtime) (prog payload : pystr) (rest : list pystr) :
  main_in rt (prog :: lit "--execute" :: payload :: rest) =
    (args <- call (json_loads_in rt payload) ;;
     location <- call (py_get args (lit "location") (PyStr (lit "unknown"))) ;;
     result <- get_weather location ;;
     print_in rt result).
Proof.
  unfold main_in, arg. simpl List.length. simpl nth.
  replace (str_eqb (lit "--execute") (lit "--schema")) with false by reflexivity.
  rewrite str_eqb_refl. reflexivity.
Qed.

Lemma main_usage (rt : runtime) (argv : list pystr) :
  (Nat.ltb 1 (List.length argv) && str_eqb (arg argv 1) (lit "--schema")) = false ->
  (Nat.ltb 2 (List.length argv) && str_eqb (arg argv 1) (lit "--execute")) = false ->
  main_in rt argv = print_in rt (chars usage).
Proof.
  intros H1 H2. unfold main_in. rewrite H1, H2. reflexivity.
Qed.

Lemma json_dumps_schema : json_dumps schema = chars schema_line.
Proof. reflexivity. Qed.

(** What the execute branch does with a decoded object: it prints the
    sentence for the value of "location", or for "unknown". *)
Lemma run_in_execute_dict (rt : runtime) (prog payload : pystr)
      (rest : list pystr) (d : pydict) (w : world) :
  json_loads_in rt payload = inr (PyDict d) ->
  run_in rt (prog :: lit "--execute" :: payload :: rest) w =
    finish
      (print_in rt
         (weather_text
            (match dict_lookup (lit "location") d with
             | Some v => v
             | None => PyStr (lit "unknown")
             end)) w).
Proof.
  intros H. unfold run_in. rewrite main_execute.
  unfold bind, call. rewrite H. reflexivity.
Qed.

Lemma run_in_execute_raise (rt : runtime) (prog payload : pystr)
      (rest : list pystr) (e : exception) (w : world) :
  json_loads_in rt payload = inl e ->
  run_in rt (prog :: lit "--execute" :: payload :: rest) w
  = (1%Z, traceback e w).
Proof.
  intros H. unfold run_in. rewrite main_execute.
  unfold bind, call. rewrite H. reflexivity.
Qed.

Lemma run_in_execute_non_dict (rt : runtime) (prog payload : pystr)
      (rest : list pystr) (v : pyvalue) (w : world) :
  json_loads_in rt payload = inr v ->
  is_dict v = false ->
  run_in rt (prog :: lit "--execute" :: payload :: rest) w =
    (1%Z, traceback AttributeError w).
Proof.
  intros H Hv. unfold run_in. rewrite main_execute.
  unfold bind, call. rewrite H.
  destruct v; try discriminate; reflexivity.
Qed.

(** The same, for the interpreter as it starts by default. *)
Lemma run_execute_dict (prog payload : pystr) (rest : list pystr)
      (d : pydict) (w : world) :
  json_loads payload = inr (PyDict d) ->
  run (prog :: lit "--execute" :: payload :: rest) w =
    if writable default_runtime
         (weather_text
            (match dict_lookup (lit "location") d with
             | Some v => v
             | None => PyStr (lit "unknown")
             end))
    then
      (0%Z,
       printed
         (weather_text
            (match dict_lookup (lit "location") d with
             | Some v => v
             | None => PyStr (lit "unknown")
             end)) w)
    else (1%Z, traceback UnicodeEncodeError w).
Proof.
  intros H. unfold run.
  rewrite (@run_in_execute_dict default_runtime prog payload rest d w H).
  apply print_outcome.
Qed.

(** A location that is a string of scalar values is printed. *)
Lemma run_execute_string (prog payload : pystr) (rest : list pystr)
      (d : pydict) (s : pystr) (w : world) :
  json_loads payload = inr (PyDict d) ->
  dict_lookup (lit "location") d = Some (PyStr s) ->
  forallb scalar s = true ->
  run (prog :: lit "--execute" :: payload :: rest) w
  = (0%Z, printed (chars (sentence s)) w).
Proof.
  intros H Hk Hs.
  rewrite (@run_execute_dict prog payload rest d w H), Hk.
  rewrite weather_text_writable, Hs, weather_text_sentence. reflexivity.
Qed.

Lemma run_execute_raise (prog payload : pystr) (rest : list pystr)
      (e : exception) (w : world) :
  json_loads payload = inl e ->
  run (prog :: lit "--execute" :: payload :: rest) w = (1%Z, traceback e w).
Proof. apply run_in_execute_raise. Qed.

Lemma run_execute_non_dict (prog payload : pystr) (rest : list pystr)
      (v : pyvalue) (w : world) :
  json_loads payload = inr v ->
  is_dict v = false ->
  run (prog :: lit "--execute" :: payload :: rest) w =
    (1%Z, traceback AttributeError w).
Proof. apply run_in_execute_non_dict. Qed.

(** * Payloads carrying a location string *)

Lemma scanstring_plain (s rest acc : pystr) :
  forallb plain_char s = true ->
  Decoder.scanstring (s ++ quote_mark :: rest) acc None
    = Decoder.Scanned (rev acc ++ s) rest.
Proof.
  revert acc. induction s as [|c s IH]; intros acc H.
  - simpl. rewrite app_nil_r. reflexivity.
  - simpl in H. apply andb_true_iff in H. destruct H as [Hc Hs].
    unfold plain_char in Hc.
    apply andb_true_iff in Hc. destruct Hc as [Hc Hb].
    apply andb_true_iff in Hc. destruct Hc as [Hlo Hq].
    apply negb_true_iff in Hq, Hb. apply N.leb_le in Hlo.
    simpl. rewrite Hq, Hb.
    replace (N.ltb c 32) with false by (symmetry; apply N.ltb_ge; exact Hlo).
    rewrite (IH (c :: acc) Hs). simpl. rewrite <- app_assoc. reflexivity.
Qed.

(** One level of nesting is all the payload needs, and it holds no
    number. *)
Lemma loads_location (lim room : nat) (s : pystr) :
  forallb plain_char s = true ->
  Decoder.loads lim (S room) (location_payload s)
  = inr (PyDict [(lit "location", PyStr s)]).
Proof.
  intros Hs.
  unfold Decoder.loads, location_payload.
  change (json_lit "{'location': '")
    with (chr "{" :: quote_mark :: lit "location"
            ++ quote_mark :: chr ":" :: chr " " :: [quote_mark]).
  change (json_lit "'}") with [quote_mark; chr "}"].
  unfold Decoder.fuel_for.
  set (n := List.length _).
  assert (Hn : (2 * n + 1 = S (S (S (2 * n - 2))))%nat).
  { subst n. simpl. rewrite length_app. simpl. lia. }
  rewrite Hn. clear Hn. generalize (2 * n - 2)%nat. clear n. intros fuel.
  unfold chr. simpl.
  rewrite (scanstring_plain s (@cons codepoint 125%N (@nil codepoint)) [] Hs). reflexivity.
Qed.

Lemma json_loads_location (s : pystr) :
  forallb plain_char s = true ->
  json_loads (location_payload s) = inr (PyDict [(lit "location", PyStr s)]).
Proof. apply (loads_location 4300 994 s). Qed.

(** X1: for a location made of Unicode scalar values, none of them a
    control character, a double quote or a backslash, [--execute] with the
    object that maps "location" to it prints the sentence for that
    location. *)
Lemma run_location_string (prog s : pystr) (rest : list pystr) (w : world) :
  forallb plain_char s = true ->
  forallb scalar s = true ->
  run (prog :: lit "--execute" :: location_payload s :: rest) w
    = (0%Z, printed (chars (sentence s)) w).
Proof.
  intros Hs Hu.
  apply (@run_execute_string prog (location_payload s) rest
           [(lit "location", PyStr s)] s w (json_loads_location s Hs));
    [reflexivity|exact Hu].
Qed.

(** * The capability function *)

(** C1: for every string [location], the empty string included,
    [get_weather(location)] returns exactly the sentence
    "The weather in {location} is sunny and 72°F" with the location
    substituted; the call leaves the world as it found it and does not
    raise. *)
Theorem get_weather_sentence (location : pystr) (w : world) :
  get_weather (PyStr location) w =
    (inr (chars (lit "The weather in " ++ location
                   ++ lit " is sunny and 72" ++ [degree_sign] ++ lit "F")),
     w).
Proof.
  unfold get_weather, ret, format_value, chars.
  rewrite !map_app. reflexivity.
Qed.

(** * The modes of the dispatcher *)

Lemma schema_mode_run_in (rt : runtime) (argv : list pystr) (w : world) :
  schema_mode argv = true ->
  run_in rt argv w = finish (print_in rt (chars schema_line) w).
Proof.
  unfold schema_mode, run_in, main_in. intros ->.
  rewrite json_dumps_schema. reflexivity.
Qed.

Lemma usage_mode_run_in (rt : runtime) (argv : list pystr) (w : world) :
  schema_mode argv = false ->
  execute_mode argv = false ->
  run_in rt argv w = finish (print_in rt (chars usage) w).
Proof.
  unfold schema_mode, execute_mode. intros H1 H2.
  unfold run_in. rewrite (main_usage rt argv H1 H2). reflexivity.
Qed.

Lemma execute_mode_run_in (rt : runtime) (argv : list pystr) (w : world) :
  schema_mode argv = false ->
  execute_mode argv = true ->
  run_in rt argv w =
    match json_loads_in rt (arg argv 2) with
    | inl e => (1%Z, traceback e w)
    | inr (PyDict d) =>
        finish
          (print_in rt
             (weather_text
                (match dict_lookup (lit "location") d with
                 | Some v => v
                 | None => PyStr (lit "unknown")
                 end)) w)
    | inr _ => (1%Z, traceback AttributeError w)
    end.
Proof.
  unfold schema_mode, execute_mode, run_in, main_in. intros -> ->.
  unfold bind, call.
  destruct (json_loads_in rt (arg argv 2)) as [e|v]; [reflexivity|].
  destruct v; reflexivity.
Qed.

Lemma schema_mode_run (argv : list pystr) (w : world) :
  schema_mode argv = true ->
  run argv w = (0%Z, printed (chars schema_line) w).
Proof.
  intros H. unfold run. rewrite (schema_mode_run_in default_runtime argv w H).
  apply (print_outcome (chars schema_line) w).
Qed.

Lemma usage_mode_run (argv : list pystr) (w : world) :
  schema_mode argv = false ->
  execute_mode argv = false ->
  run argv w = (0%Z, printed (chars usage) w).
Proof.
  intros H1 H2. unfold run.
  rewrite (usage_mode_run_in default_runtime argv w H1 H2).
  apply (print_outcome (chars usage) w).
Qed.

(** The outcome of the execute branch, by what the payload decodes to. *)
Lemma execute_mode_run (argv : list pystr) (w : world) :
  schema_mode argv = false ->
  execute_mode argv = true ->
  run argv w =
    match json_loads (arg argv 2) with
    | inl e => (1%Z, traceback e w)
    | inr (PyDict d) =>
        match dict_lookup (lit "location") d with
        | Some (PyStr s) =>
            if forallb scalar s
            then (0%Z, printed (chars (sentence s)) w)
            else (1%Z, traceback UnicodeEncodeError w)
        | Some v => (0%Z, printed (weather_text v) w)
        | None => (0%Z, printed (chars (sentence (lit "unknown"))) w)
        end
    | inr _ => (1%Z, traceback AttributeError w)
    end.
Proof.
  intros H1 H2. unfold run.
  rewrite (execute_mode_run_in default_runtime argv w H1 H2).
  change (json_loads_in default_runtime (arg argv 2))
    with (json_loads (arg argv 2)).
  destruct (json_loads (arg argv 2)) as [e|v]; [reflexivity|].
  destruct v as [ |b|z|f|s|items|d]; try reflexivity.
  rewrite (print_outcome _ w), weather_text_writable.
  destruct (dict_lookup (lit "location") d) as [v|]; [|reflexivity].
  destruct v as [ |b|z|f|s|items|items]; try reflexivity.
  rewrite weather_text_sentence. reflexivity.
Qed.

Lemma execute_mode_spec (argv : list pystr) :
  execute_mode argv = true <->
  (2 < List.length argv)%nat /\ arg argv 1 = lit "--execute".
Proof.
  unfold execute_mode.
  rewrite andb_true_iff, Nat.ltb_lt, str_eqb_eq. reflexivity.
Qed.


Lemma schema_excludes_execute (argv : list pystr) :
  arg argv 1 = lit "--execute" -> schema_mode argv = false.
Proof.
  intros H. unfold schema_mode. rewrite H.
  replace (str_eqb (lit "--execute") (lit "--schema")) with false by reflexivity.
  apply andb_false_r.
Qed.

(** * Schema mode *)

Lemma not_in_existsb (c : codepoint) (s : pystr) :
  existsb (N.eqb c) s = false -> ~ In c s.
Proof.
  intros H Hin.
  assert (E : existsb (N.eqb c) s = true).
  { apply existsb_exists. exists c. split; [exact Hin|apply N.eqb_refl]. }
  congruence.
Qed.

(** C2: when the first argument is "--schema" the program prints one line,
    a JSON object; decoded, it has title "get_weather", type "object",
    required ["location"] and properties.location.type "string". *)
Theorem schema_mode_output (prog : pystr) (rest : list pystr) (w : world) :
  run (prog :: lit "--schema" :: rest) w = (0%Z, printed (chars schema_line) w)
  /\ ~ In 10%N schema_line
  /\ ~ In 13%N schema_line
  /\ exists doc : pyvalue,
       json_loads schema_line = inr doc
       /\ is_dict doc = true
       /\ json_path [lit "title"] doc = Some (PyStr (lit "get_weather"))
       /\ json_path [lit "type"] doc = Some (PyStr (lit "object"))
       /\ json_path [lit "required"] doc = Some (PyList [PyStr (lit "location")])
       /\ json_path [lit "properties"; lit "location"; lit "type"] doc
          = Some (PyStr (lit "string")).
Proof.
  split.
  { apply schema_mode_run. unfold schema_mode, arg. simpl List.length.
    simpl nth. rewrite str_eqb_refl. reflexivity. }
  split; [apply not_in_existsb; reflexivity|].
  split; [apply not_in_existsb; reflexivity|].
  exists schema.
  split; [vm_compute; reflexivity|].
  repeat split.
Qed.

(** * Execute mode *)

(** C3: in execute mode, when the decoded object has no "location" key the
    capability is invoked with the literal "unknown", and the program prints
    "The weather in unknown is sunny and 72°F". *)
Theorem execute_missing_location (prog payload : pystr) (rest : list pystr)
        (d : pydict) (w : world) :
  json_loads payload = inr (PyDict d) ->
  dict_lookup (lit "location") d = None ->
  py_get (PyDict d) (lit "location") (PyStr (lit "unknown"))
    = inr (PyStr (lit "unknown"))
  /\ run (prog :: lit "--execute" :: payload :: rest) w =
       (0%Z,
        printed (chars (lit "The weather in unknown is sunny and 72"
                          ++ [degree_sign] ++ lit "F")) w).
Proof.
  intros Hload Hkey. split.
  - simpl. rewrite Hkey. reflexivity.
  - rewrite (@run_execute_dict prog payload rest d w Hload), Hkey. reflexivity.
Qed.

(** The instance the specification names: [--execute '{}']. *)
Lemma execute_missing_location_witness :
  json_loads (lit "{}") = inr (PyDict [])
  /\ dict_lookup (lit "location") [] = None
  /\ run [lit "weather.py"; lit "--execute"; lit "{}"] idle =
       (0%Z,
        printed (chars (lit "The weather in unknown is sunny and 72"
                          ++ [degree_sign] ++ lit "F")) idle).
Proof.
  split; [reflexivity|]. split; [reflexivity|].
  apply (@execute_missing_location (lit "weather.py") (lit "{}") [] [] idle);
    reflexivity.
Defined.

(** C4, as stated, fails: a "location" that is the number 5 is extracted as
    the number 5, not as "unknown", and the sentence printed names 5. *)
Lemma nonstring_location_counterexample :
  json_loads (json_lit "{'location': 5}")
    = inr (PyDict [(lit "location", PyInt 5)])
  /\ py_get (PyDict [(lit "location", PyInt 5)]) (lit "location")
       (PyStr (lit "unknown")) = inr (PyInt 5)
  /\ PyInt 5 <> PyStr (lit "unknown")
  /\ run [lit "weather.py"; lit "--execute"; json_lit "{'location': 5}"] idle
       = (0%Z, printed (chars (sentence (lit "5"))) idle)
  /\ sentence (lit "5") <> sentence (lit "unknown").
Proof.
  split; [reflexivity|]. split; [reflexivity|].
  split; [discriminate|]. split; [reflexivity|].
  vm_compute. discriminate.
Qed.

(** C4, amended: whatever value the object maps "location" to, string or
    not, that value itself is extracted and passed to the capability, and no
    default takes its place.  A value that is not a string is rendered by
    [str()] in the sentence that is printed.  A string is printed as it is
    when it is made of Unicode scalar values; a string that holds a
    surrogate reaches [print] all the same, which the UTF-8 stream refuses:
    the run ends with an uncaught [UnicodeEncodeError] and prints
    nothing. *)
Theorem execute_passes_location (prog payload : pystr) (rest : list pystr)
        (d : pydict) (v : pyvalue) (w : world) :
  json_loads payload = inr (PyDict d) ->
  dict_lookup (lit "location") d = Some v ->
  py_get (PyDict d) (lit "location") (PyStr (lit "unknown")) = inr v
  /\ get_weather v w = (inr (weather_text v), w)
  /\ run (prog :: lit "--execute" :: payload :: rest) w =
       match v with
       | PyStr s =>
           if forallb scalar s
           then (0%Z, printed (chars (sentence s)) w)
           else (1%Z, traceback UnicodeEncodeError w)
       | _ => (0%Z, printed (weather_text v) w)
       end.
Proof.
  intros Hload Hkey. split; [|split].
  - simpl. rewrite Hkey. reflexivity.
  - reflexivity.
  - rewrite (@run_execute_dict prog payload rest d w Hload), Hkey.
    rewrite weather_text_writable.
    destruct v as [ |b|z|f|s|items|items]; try reflexivity.
    rewrite weather_text_sentence. reflexivity.
Qed.

Lemma execute_passes_location_witness :
  json_loads (json_lit "{'location': true}")
    = inr (PyDict [(lit "location", PyBool true)])
  /\ dict_lookup (lit "location") [(lit "location", PyBool true)]
       = Some (PyBool true)
  /\ run [lit "weather.py"; lit "--execute"; json_lit "{'location': true}"] idle
       = (0%Z, printed (chars (sentence (lit "True"))) idle).
Proof.
  split; [reflexivity|]. split; [reflexivity|].
  apply (@execute_passes_location (lit "weather.py")
            (json_lit "{'location': true}") []
            [(lit "location", PyBool true)] (PyBool true) idle);
    reflexivity.
Defined.

(** * Exit status *)

(** C5, as stated, fails: the payload [[]] is well-formed JSON, and the
    program still ends with exit status 1. *)
Lemma non_object_payload_counterexample :
  json_loads (lit "[]") = inr (PyList [])
  /\ run [lit "weather.py"; lit "--execute"; lit "[]"] idle
       = (1%Z, traceback AttributeError idle).
Proof. split; reflexivity. Qed.

(** C5, amended: the exit status is 0 or 1, and it is not 0 exactly when
    the mode is "--execute" with a second argument present and one of three
    things happens: [json.loads] raises on that argument (a text that is not
    JSON, an integer with more digits than [int()] accepts, arrays and
    objects nested beyond the recursion limit); or the argument decodes to
    something that is not an object; or it decodes to an object whose
    "location" is a string holding a surrogate, which [print] cannot
    encode. *)
Theorem exit_status_nonzero (argv : list pystr) (w : world) :
  (fst (run argv w) = 0%Z \/ fst (run argv w) = 1%Z)
  /\ (fst (run argv w) <> 0%Z <->
      (2 < List.length argv)%nat
      /\ arg argv 1 = lit "--execute"
      /\ ((exists e : exception,
             json_loads (arg argv 2) = inl e
             /\ (e = JSONDecodeError \/ e = ValueError \/ e = RecursionError))
          \/ (exists v : pyvalue,
                json_loads (arg argv 2) = inr v /\ is_dict v = false)
          \/ (exists (d : pydict) (s : pystr),
                json_loads (arg argv 2) = inr (PyDict d)
                /\ dict_lookup (lit "location") d = Some (PyStr s)
                /\ forallb scalar s = false))).
Proof.
  destruct (schema_mode argv) eqn:Hs.
  { rewrite (schema_mode_run argv w Hs). simpl. split; [left; reflexivity|].
    split; [congruence|]. intros (_ & Hx & _).
    apply schema_excludes_execute in Hx. congruence. }
  destruct (execute_mode argv) eqn:He.
  2:{ rewrite (usage_mode_run argv w Hs He). simpl. split; [left; reflexivity|].
      split; [congruence|]. intros (Hlen & Hx & _).
      assert (execute_mode argv = true) by (apply execute_mode_spec; auto).
      congruence. }
  rewrite (execute_mode_run argv w Hs He).
  apply execute_mode_spec in He. destruct He as [Hlen Hx].
  destruct (json_loads (arg argv 2)) as [e|v] eqn:Hl.
  { pose proof (json_loads_raises _ Hl) as He. simpl.
    split; [right; reflexivity|]. split; [|discriminate].
    intros _. split; [exact Hlen|]. split; [exact Hx|].
    left. exists e. split; [reflexivity|exact He]. }
  assert (Hbad : forall v0 : pyvalue, v = v0 -> is_dict v0 = false ->
            (fst (1%Z, traceback AttributeError w) = 0%Z
             \/ fst (1%Z, traceback AttributeError w) = 1%Z)
            /\ (fst (1%Z, traceback AttributeError w) <> 0%Z <->
                (2 < List.length argv)%nat
                /\ arg argv 1 = lit "--execute"
                /\ ((exists e : exception,
                       inr v = inl e
                       /\ (e = JSONDecodeError \/ e = ValueError
                           \/ e = RecursionError))
                    \/ (exists v1 : pyvalue,
                          @inr exception pyvalue v = inr v1
                          /\ is_dict v1 = false)
                    \/ (exists (d : pydict) (s : pystr),
                          @inr exception pyvalue v = inr (PyDict d)
                          /\ dict_lookup (lit "location") d = Some (PyStr s)
                          /\ forallb scalar s = false)))).
  { intros v0 -> Hd. simpl. split; [right; reflexivity|]. split; [|discriminate].
    intros _. split; [exact Hlen|]. split; [exact Hx|].
    right. left. exists v0. split; [reflexivity|exact Hd]. }
  destruct v as [ |b|z|f|s|items|d];
    try (apply (Hbad _ eq_refl eq_refl)).
  clear Hbad.
  assert (Hgood : forall t : pytext,
            (forall s : pystr,
               dict_lookup (lit "location") d = Some (PyStr s) ->
               forallb scalar s = true) ->
            (fst (0%Z, printed t w) = 0%Z \/ fst (0%Z, printed t w) = 1%Z)
            /\ (fst (0%Z, printed t w) <> 0%Z <->
                (2 < List.length argv)%nat
                /\ arg argv 1 = lit "--execute"
                /\ ((exists e : exception,
                       inr (PyDict d) = inl e
                       /\ (e = JSONDecodeError \/ e = ValueError
                           \/ e = RecursionError))
                    \/ (exists v1 : pyvalue,
                          @inr exception pyvalue (PyDict d) = inr v1
                          /\ is_dict v1 = false)
                    \/ (exists (d0 : pydict) (s : pystr),
                          @inr exception pyvalue (PyDict d) = inr (PyDict d0)
                          /\ dict_lookup (lit "location") d0 = Some (PyStr s)
                          /\ forallb scalar s = false)))).
  { intros t Hok. simpl. split; [left; reflexivity|]. split; [congruence|].
    intros (_ & _ & [(e & He & _) | [(v1 & Hv1 & Hd1) | (d0 & s & Hd0 & Hk & Hbad)]]).
    - discriminate.
    - injection Hv1 as <-. discriminate.
    - injection Hd0 as <-. apply Hok in Hk. congruence. }
  destruct (dict_lookup (lit "location") d) as [v|] eqn:Hk.
  2:{ apply Hgood. intros s Hs'. discriminate. }
  destruct v as [ |b|z|f|s|items|items];
    try (apply Hgood; intros s' Hs'; discriminate).
  destruct (forallb scalar s) eqn:Hsc.
  { apply Hgood. intros s' Hs'. injection Hs' as <-. exact Hsc. }
  simpl. split; [right; reflexivity|]. split; [|discriminate].
  intros _. split; [exact Hlen|]. split; [exact Hx|].
  right. right. exists d, s. auto.
Qed.

(** * Usage *)



(** * Consistency of the schema with the execute branch *)

Lemma reads_location : reads_key (lit "location").
Proof.
  exists (lit "{}"), (json_lit "{'location': 'x'}"),
    [], [(lit "location", PyStr (lit "x"))], idle.
  split; [reflexivity|]. split; [reflexivity|]. split.
  - intros k' Hne. simpl.
    apply str_eqb_neq in Hne. rewrite Hne. reflexivity.
  - vm_compute. discriminate.
Qed.

Lemma reads_only_location (k : pystr) : reads_key k -> k = lit "location".
Proof.
  intros (p1 & p2 & d1 & d2 & w & H1 & H2 & Hagree & Hdiff).
  destruct (str_eqb k (lit "location")) eqn:E.
  { apply str_eqb_eq. exact E. }
  exfalso. apply Hdiff.
  rewrite (@run_execute_dict (lit "weather.py") p1 [] d1 w H1).
  rewrite (@run_execute_dict (lit "weather.py") p2 [] d2 w H2).
  rewrite (Hagree (lit "location")); [reflexivity|].
  intros Heq. symmetry in Heq. apply str_eqb_eq in Heq. congruence.
Qed.

(** C7: the descriptor that [--schema] prints agrees with the execute
    branch: its required list and the keys of its properties are both
    exactly the names the execute branch reads, the single name
    "location". *)
Theorem schema_consistent_with_execute :
  exists (required : list pyvalue) (props : pydict),
    json_loads schema_line = inr schema
    /\ json_path [lit "required"] schema = Some (PyList required)
    /\ json_path [lit "properties"] schema = Some (PyDict props)
    /\ required = [PyStr (lit "location")]
    /\ dict_keys props = [lit "location"]
    /\ (forall k : pystr, reads_key k <-> In (PyStr k) required)
    /\ (forall k : pystr, reads_key k <-> In k (dict_keys props)).
Proof.
  eexists. eexists.
  split; [vm_compute; reflexivity|].
  split; [reflexivity|]. split; [reflexivity|].
  split; [reflexivity|]. split; [reflexivity|].
  split; intros k; split.
  - intros H. apply reads_only_location in H. subst k. left. reflexivity.
  - intros [H|[]]. injection H as <-. apply reads_location.
  - intros H. apply reads_only_location in H. subst k. left. reflexivity.
  - intros [H|[]]. simpl in H. subst k. apply reads_location.
Qed.

(** * Determinism *)



(** * Failure on a payload that is not an object *)

(** C9: in execute mode, a second argument that is valid JSON but not an
    object (an array, a string, a number, a boolean or null) makes the
    program end with an uncaught [AttributeError]: exit status 1, a report
    on the error stream, nothing printed. *)
Theorem execute_non_object_fails (prog payload : pystr) (rest : list pystr)
        (v : pyvalue) (w : world) :
  json_loads payload = inr v ->
  is_dict v = false ->
  run (prog :: lit "--execute" :: payload :: rest) w
    = (1%Z, traceback AttributeError w)
  /\ stdout (snd (run (prog :: lit "--execute" :: payload :: rest) w))
     = stdout w
  /\ stderr (snd (run (prog :: lit "--execute" :: payload :: rest) w))
     = stderr w ++ [AttributeError].
Proof.
  intros Hload Hv.
  rewrite (@run_execute_non_dict prog payload rest v w Hload Hv).
  repeat split.
Qed.

Lemma execute_non_object_fails_witness :
  json_loads (json_lit "'Paris'") = inr (PyStr (lit "Paris"))
  /\ is_dict (PyStr (lit "Paris")) = false
  /\ run [lit "weather.py"; lit "--execute"; json_lit "'Paris'"] idle
       = (1%Z, traceback AttributeError idle).
Proof.
  split; [reflexivity|]. split; [reflexivity|].
  apply (@execute_non_object_fails (lit "weather.py") (json_lit "'Paris'") []
           (PyStr (lit "Paris")) idle);
    reflexivity.
Defined.

(** * Surplus arguments *)

(** C10: arguments after the recognised mode are ignored: anything after
    "--schema" leaves the printed schema as it is, and anything after the
    JSON text of "--execute" leaves the result as it is. *)
Theorem surplus_arguments_ignored (prog payload : pystr) (rest : list pystr)
        (w : world) :
  run (prog :: lit "--schema" :: rest) w = run [prog; lit "--schema"] w
  /\ run (prog :: lit "--execute" :: payload :: rest) w
     = run [prog; lit "--execute"; payload] w.
Proof.
  split.
  - unfold run, run_in. rewrite !main_schema. reflexivity.
  - unfold run, run_in. rewrite !main_execute. reflexivity.
Qed.

Unset Implicit Arguments.

(** * Fuel *)

Module FuelFacts.
Import Decoder.

#[local] Arguments skip_ws : simpl never.
#[local] Arguments scanstring : simpl never.
#[local] Arguments match_number : simpl never.
#[local] Arguments startswith : simpl never.
#[local] Arguments skipn : simpl never.
#[local] Arguments lit : simpl never.

Ltac same_test :=
  match goal with
  | |- (if ?b then _ else _) = (if ?b then _ else _) => destruct b
  | H : (if ?b then _ else _) <> _ |- _ => destruct b
  end.

Lemma scan_more_fuel (lim fuel : nat) :
  (forall room s fuel',
     (fuel <= fuel')%nat -> scan_once lim fuel room s <> Starved ->
     scan_once lim fuel' room s = scan_once lim fuel room s) /\
  (forall room s acc fuel',
     (fuel <= fuel')%nat -> array_items lim fuel room s acc <> Starved ->
     array_items lim fuel' room s acc = array_items lim fuel room s acc) /\
  (forall room s acc fuel',
     (fuel <= fuel')%nat -> object_members lim fuel room s acc <> Starved ->
     object_members lim fuel' room s acc = object_members lim fuel room s acc).
Proof.
  induction fuel as [|fuel (IHs & IHa & IHo)].
  { repeat split; intros; simpl in *; congruence. }
  repeat split.
  - intros room s [|fuel'] Hle H; [lia|].
    assert (Hle' : (fuel <= fuel')%nat) by lia.
    simpl in H |- *.
    destruct s as [|c t]; [reflexivity|].
    same_test; [reflexivity|].
    same_test.
    { destruct room as [|room']; [reflexivity|].
      destruct (skip_ws t) as [|c1 r]; [reflexivity|].
      same_test; [reflexivity|]. apply IHo; assumption. }
    same_test.
    { destruct room as [|room']; [reflexivity|].
      destruct (skip_ws t) as [|c1 r]; [reflexivity|].
      same_test; [reflexivity|]. apply IHa; assumption. }
    reflexivity.
  - intros room s acc [|fuel'] Hle H; [lia|].
    assert (Hle' : (fuel <= fuel')%nat) by lia.
    simpl in H |- *.
    destruct (scan_once lim fuel room s) as [v r|e|] eqn:E.
    + rewrite (IHs room s fuel' Hle'), E by (rewrite E; discriminate).
      destruct (skip_ws r) as [|c t]; [reflexivity|].
      same_test; [reflexivity|].
      same_test; [|reflexivity]. apply IHa; assumption.
    + rewrite (IHs room s fuel' Hle'), E by (rewrite E; discriminate). reflexivity.
    + congruence.
  - intros room s acc [|fuel'] Hle H; [lia|].
    assert (Hle' : (fuel <= fuel')%nat) by lia.
    simpl in H |- *.
    destruct s as [|c t]; [reflexivity|].
    same_test; [|reflexivity].
    destruct (scanstring t [] None) as [key r|e|]; try reflexivity.
    destruct (skip_ws r) as [|c2 r2]; [reflexivity|].
    same_test; [|reflexivity].
    destruct (scan_once lim fuel room (skip_ws r2)) as [v r3|e|] eqn:E.
    + rewrite (IHs room (skip_ws r2) fuel' Hle'), E by (rewrite E; discriminate).
      destruct (skip_ws r3) as [|c3 r4]; [reflexivity|].
      same_test; [reflexivity|].
      same_test; [|reflexivity]. apply IHo; assumption.
    + rewrite (IHs room (skip_ws r2) fuel' Hle'), E by (rewrite E; discriminate).
      reflexivity.
    + congruence.
Qed.

(** Any fuel above twice the length of the text gives the same scan. *)
Lemma scan_once_fuel (lim room : nat) (s : pystr) (fuel fuel' : nat) :
  (2 * List.length s < fuel)%nat -> (2 * List.length s < fuel')%nat ->
  scan_once lim fuel room s = scan_once lim fuel' room s.
Proof.
  intros H H'.
  pose proof (proj1 (DecoderFacts.scan_fed lim (S (2 * List.length s))) room s
                (Nat.lt_succ_diag_r _)) as Hfed.
  rewrite (proj1 (scan_more_fuel lim (S (2 * List.length s))) room s fuel)
    by (lia || exact Hfed).
  rewrite (proj1 (scan_more_fuel lim (S (2 * List.length s))) room s fuel')
    by (lia || exact Hfed).
  reflexivity.
Qed.

End FuelFacts.

(** * White space around the payload *)

Module BlankFacts.
Import Decoder.

Lemma is_ws_cases (c : codepoint) :
  is_ws c = true -> c = 32%N \/ c = 9%N \/ c = 10%N \/ c = 13%N.
Proof.
  unfold is_ws. rewrite !orb_true_iff, !N.eqb_eq. tauto.
Qed.

Ltac ws_cases H :=
  apply is_ws_cases in H; destruct H as [H|[H|[H|H]]]; subst.

Lemma blank_cons (c : codepoint) (post : pystr) :
  blank (c :: post) = true -> is_ws c = true /\ blank post = true.
Proof. unfold blank. simpl. apply andb_true_iff. Qed.

Lemma skip_ws_blank (post : pystr) : blank post = true -> skip_ws post = [].
Proof.
  induction post as [|c post IH]; [reflexivity|].
  intros H. apply blank_cons in H. destruct H as [Hc Hp].
  simpl. rewrite Hc. auto.
Qed.

Lemma skip_ws_app_blank (s post : pystr) :
  blank post = true ->
  skip_ws (s ++ post) = match skip_ws s with [] => [] | c :: r => (c :: r) ++ post end.
Proof.
  intros Hp. induction s as [|c t IH]; simpl.
  - apply skip_ws_blank. exact Hp.
  - destruct (is_ws c); [exact IH|reflexivity].
Qed.

Lemma skip_ws_blank_app (pre s : pystr) :
  blank pre = true -> skip_ws (pre ++ s) = skip_ws s.
Proof.
  induction pre as [|c pre IH]; [reflexivity|].
  intros H. apply blank_cons in H. destruct H as [Hc Hp].
  simpl. rewrite Hc. auto.
Qed.

Lemma scanstring_blank_only (post acc : pystr) (pending : option codepoint) :
  blank post = true -> scanstring post acc pending = Malformed.
Proof.
  revert acc pending. induction post as [|c post IH]; intros acc pending H.
  - reflexivity.
  - apply blank_cons in H. destruct H as [Hc Hp].
    ws_cases Hc; try reflexivity.
    simpl. apply IH. exact Hp.
Qed.

Lemma hexval_ws (c : codepoint) : is_ws c = true -> hexval c = None.
Proof. intros H. ws_cases H; reflexivity. Qed.

Lemma simple_escape_ws (c : codepoint) : is_ws c = true -> simple_escape c = None.
Proof. intros H. ws_cases H; reflexivity. Qed.

Lemma hex4_none_1 (a b c d : codepoint) : hexval a = None -> hex4 a b c d = None.
Proof. unfold hex4. intros ->. reflexivity. Qed.

Lemma hex4_none_2 (a b c d : codepoint) : hexval b = None -> hex4 a b c d = None.
Proof. unfold hex4. intros ->. destruct (hexval a); reflexivity. Qed.

Lemma hex4_none_3 (a b c d : codepoint) : hexval c = None -> hex4 a b c d = None.
Proof.
  unfold hex4. intros ->. destruct (hexval a), (hexval b); reflexivity.
Qed.

Lemma hex4_none_4 (a b c d : codepoint) : hexval d = None -> hex4 a b c d = None.
Proof.
  unfold hex4. intros ->.
  destruct (hexval a), (hexval b), (hexval c); reflexivity.
Qed.

(** A [\u] escape cut short by the end of the text stays malformed when
    white space follows. *)
Lemma short_escape_blank (t1 post acc : pystr) (pending : option codepoint) :
  blank post = true ->
  (List.length t1 < 4)%nat ->
  scanstring (chr "\" :: chr "u" :: t1 ++ post) acc pending = Malformed.
Proof.
  intros Hp Hlen.
  assert (Hhex : forall c r, post = c :: r -> hexval c = None).
  { intros c r ->. apply blank_cons in Hp. apply hexval_ws. tauto. }
  assert (Hhex2 : forall c c' r, post = c :: c' :: r -> hexval c' = None).
  { intros c c' r ->. apply blank_cons in Hp. destruct Hp as [_ Hp].
    apply blank_cons in Hp. apply hexval_ws. tauto. }
  assert (Hhex3 : forall c c' c'' r, post = c :: c' :: c'' :: r -> hexval c'' = None).
  { intros c c' c'' r ->. apply blank_cons in Hp. destruct Hp as [_ Hp].
    apply blank_cons in Hp. destruct Hp as [_ Hp].
    apply blank_cons in Hp. apply hexval_ws. tauto. }
  assert (Hhex4 : forall c c' c'' c''' r,
             post = c :: c' :: c'' :: c''' :: r -> hexval c''' = None).
  { intros c c' c'' c''' r ->. apply blank_cons in Hp. destruct Hp as [_ Hp].
    apply blank_cons in Hp. destruct Hp as [_ Hp].
    apply blank_cons in Hp. destruct Hp as [_ Hp].
    apply blank_cons in Hp. apply hexval_ws. tauto. }
  destruct t1 as [|h1 [|h2 [|h3 [|h4 t2]]]]; simpl in Hlen; try lia;
    destruct post as [|p1 [|p2 [|p3 [|p4 post']]]]; try reflexivity;
    simpl;
    first [ rewrite (hex4_none_1 _ _ _ _ (Hhex _ _ eq_refl))
          | rewrite (hex4_none_2 _ _ _ _ (Hhex _ _ eq_refl))
          | rewrite (hex4_none_3 _ _ _ _ (Hhex _ _ eq_refl))
          | rewrite (hex4_none_4 _ _ _ _ (Hhex _ _ eq_refl))
          | rewrite (hex4_none_2 _ _ _ _ (Hhex2 _ _ _ eq_refl))
          | rewrite (hex4_none_3 _ _ _ _ (Hhex2 _ _ _ eq_refl))
          | rewrite (hex4_none_4 _ _ _ _ (Hhex2 _ _ _ eq_refl))
          | rewrite (hex4_none_3 _ _ _ _ (Hhex3 _ _ _ _ eq_refl))
          | rewrite (hex4_none_4 _ _ _ _ (Hhex3 _ _ _ _ eq_refl))
          | rewrite (hex4_none_4 _ _ _ _ (Hhex4 _ _ _ _ _ eq_refl)) ];
    reflexivity.
Qed.

Lemma scanstring_blank (post : pystr) (Hp : blank post = true) (s : pystr) :
  forall acc pending,
    scanstring (s ++ post) acc pending
      = followed_by post (scanstring s acc pending).
Proof.
  induction s as [s IH] using (well_founded_induction
    (Wf_nat.well_founded_ltof _ (@List.length codepoint))).
  unfold Wf_nat.ltof in IH.
  intros acc pending.
  destruct s as [|c t].
  { simpl. apply scanstring_blank_only. exact Hp. }
  rewrite <- app_comm_cons.
  destruct (N.eqb c quote_mark) eqn:Eq.
  { simpl. rewrite Eq. reflexivity. }
  destruct (N.eqb c (chr "\")) eqn:Eb.
  - apply N.eqb_eq in Eb. subst c.
    destruct t as [|e t1].
    { simpl. destruct post as [|p post']; [reflexivity|].
      apply blank_cons in Hp. destruct Hp as [Hc _].
      ws_cases Hc; reflexivity. }
    rewrite <- app_comm_cons.
    destruct (N.eqb e (chr "u")) eqn:Eu.
    + apply N.eqb_eq in Eu. subst e.
      destruct (Nat.ltb (List.length t1) 4) eqn:El.
      * apply Nat.ltb_lt in El.
        rewrite (short_escape_blank t1 post acc pending Hp El).
        destruct t1 as [|h1 [|h2 [|h3 [|h4 t2]]]]; simpl in El; try lia;
          reflexivity.
      * apply Nat.ltb_ge in El.
        destruct t1 as [|h1 [|h2 [|h3 [|h4 t2]]]]; simpl in El; try lia.
        simpl.
        destruct (hex4 h1 h2 h3 h4) as [u|]; [|reflexivity].
        destruct pending as [h|];
          repeat match goal with
                 | |- context [if ?b then _ else _] => destruct b
                 end;
          apply IH; simpl; lia.
    + simpl. rewrite Eu.
      destruct (simple_escape e); [|reflexivity].
      apply IH. simpl. lia.
  - simpl. rewrite Eq, Eb.
    destruct (N.ltb c 32); [reflexivity|].
    apply IH. simpl. lia.
Qed.


Lemma is_digit_ws (c : codepoint) : is_ws c = true -> is_digit c = false.
Proof. intros H. ws_cases H; reflexivity. Qed.

Lemma span_digits_blank (post : pystr) (Hp : blank post = true) (s : pystr) :
  span_digits (s ++ post)
    = (fst (span_digits s), snd (span_digits s) ++ post).
Proof.
  induction s as [|c t IH]; simpl.
  - destruct post as [|p post']; [reflexivity|].
    apply blank_cons in Hp. destruct Hp as [Hc _].
    simpl. rewrite (is_digit_ws p Hc). reflexivity.
  - destruct (is_digit c); [|reflexivity].
    rewrite IH. destruct (span_digits t) as [ds r]. reflexivity.
Qed.

Lemma span_integer_blank (post : pystr) (Hp : blank post = true) (s : pystr) :
  span_integer (s ++ post)
    = match span_integer s with
      | Some (ip, r) => Some (ip, r ++ post)
      | None => None
      end.
Proof.
  destruct s as [|c t]; simpl.
  - destruct post as [|p post']; [reflexivity|].
    apply blank_cons in Hp. destruct Hp as [Hc _].
    ws_cases Hc; reflexivity.
  - destruct (N.eqb c 48); [reflexivity|].
    destruct (is_digit c); [|reflexivity].
    rewrite (span_digits_blank post Hp t).
    destruct (span_digits t) as [ds r]. reflexivity.
Qed.

Lemma span_fraction_blank (post : pystr) (Hp : blank post = true) (s : pystr) :
  span_fraction (s ++ post)
    = (fst (span_fraction s), snd (span_fraction s) ++ post).
Proof.
  destruct s as [|c t].
  - destruct post as [|p post']; [reflexivity|].
    apply blank_cons in Hp. destruct Hp as [Hc _].
    ws_cases Hc; reflexivity.
  - rewrite <- app_comm_cons. unfold span_fraction.
    destruct (N.eqb c (chr ".")); [|reflexivity].
    rewrite (span_digits_blank post Hp t).
    destruct (span_digits t) as [[|d ds] r]; reflexivity.
Qed.

Lemma span_exponent_blank (post : pystr) (Hp : blank post = true) (s : pystr) :
  span_exponent (s ++ post)
    = (fst (span_exponent s), snd (span_exponent s) ++ post).
Proof.
  destruct s as [|c t].
  - destruct post as [|p post']; [reflexivity|].
    apply blank_cons in Hp. destruct Hp as [Hc _].
    ws_cases Hc; reflexivity.
  - rewrite <- app_comm_cons. unfold span_exponent.
    destruct (N.eqb c (chr "e") || N.eqb c (chr "E")); [|reflexivity].
    destruct t as [|g t1].
    + simpl app. destruct post as [|p post']; [reflexivity|].
      pose proof Hp as Hp'.
      apply blank_cons in Hp'. destruct Hp' as [Hc Hrest].
      replace (N.eqb p (chr "-") || N.eqb p (chr "+")) with false
        by (ws_cases Hc; reflexivity).
      change (p :: post') with ([] ++ p :: post').
      rewrite (span_digits_blank (p :: post') Hp []). reflexivity.
    + rewrite <- app_comm_cons.
      destruct (N.eqb g (chr "-") || N.eqb g (chr "+")).
      * rewrite (span_digits_blank post Hp t1).
        destruct (span_digits t1) as [[|d ds] r]; reflexivity.
      * rewrite app_comm_cons.
        rewrite (span_digits_blank post Hp (g :: t1)).
        destruct (span_digits (g :: t1)) as [[|d ds] r]; reflexivity.
Qed.

Lemma number_tail_blank (lim : nat) (post : pystr) (Hp : blank post = true)
      (neg : bool) (body : pystr) :
  match span_integer (body ++ post) with
  | None => Malformed
  | Some (ip, r1) =>
      let (fp, r2) := span_fraction r1 in
      let (ep, r3) := span_exponent r2 in
      match fp, ep with
      | [], [] =>
          if too_long lim ip then Failed ValueError
          else
            let n := int_of_digits ip in
            Scanned (PyInt (if neg then (- n)%Z else n)) r3
      | _, _ =>
          Scanned
            (PyFloat (FloatOf ((if neg then [chr "-"] else []) ++ ip ++ fp ++ ep)))
            r3
      end
  end
  = followed_by post
      match span_integer body with
      | None => Malformed
      | Some (ip, r1) =>
          let (fp, r2) := span_fraction r1 in
          let (ep, r3) := span_exponent r2 in
          match fp, ep with
          | [], [] =>
              if too_long lim ip then Failed ValueError
              else
                let n := int_of_digits ip in
                Scanned (PyInt (if neg then (- n)%Z else n)) r3
          | _, _ =>
              Scanned
                (PyFloat
                   (FloatOf ((if neg then [chr "-"] else []) ++ ip ++ fp ++ ep)))
                r3
          end
      end.
Proof.
  rewrite (span_integer_blank post Hp body).
  destruct (span_integer body) as [[ip r1]|]; [|reflexivity].
  rewrite (span_fraction_blank post Hp r1).
  destruct (span_fraction r1) as [fp r2]. simpl fst. simpl snd.
  rewrite (span_exponent_blank post Hp r2).
  destruct (span_exponent r2) as [ep r3]. simpl fst. simpl snd.
  destruct fp, ep; try reflexivity.
  destruct (too_long lim ip); reflexivity.
Qed.

Lemma match_number_blank (lim : nat) (post : pystr) (Hp : blank post = true)
      (s : pystr) :
  match_number lim (s ++ post) = followed_by post (match_number lim s).
Proof.
  destruct s as [|c t].
  - simpl app. destruct post as [|p post']; [reflexivity|].
    pose proof Hp as Hp'. apply blank_cons in Hp'. destruct Hp' as [Hc _].
    ws_cases Hc; reflexivity.
  - rewrite <- app_comm_cons. unfold match_number.
    destruct (N.eqb c (chr "-")).
    + apply (number_tail_blank lim post Hp true t).
    + rewrite app_comm_cons. apply (number_tail_blank lim post Hp false (c :: t)).
Qed.

Lemma startswith_length (p s : pystr) :
  startswith p s = true -> (List.length p <= List.length s)%nat.
Proof.
  revert s. induction p as [|x p IH]; intros s H; simpl; [lia|].
  destruct s as [|y s]; [discriminate|].
  simpl in H. apply andb_true_iff in H. destruct H as [_ H].
  apply IH in H. simpl. lia.
Qed.

(** A prefix without white space is found in the text or not, whatever
    white space follows the text. *)
Lemma startswith_blank (post : pystr) (Hp : blank post = true) (p : pystr) :
  forallb (fun c => negb (is_ws c)) p = true ->
  forall s, startswith p (s ++ post) = startswith p s.
Proof.
  induction p as [|x p IH]; intros Hx s; [reflexivity|].
  simpl in Hx. apply andb_true_iff in Hx. destruct Hx as [Hx Hrest].
  destruct s as [|y s].
  - simpl. destruct post as [|q post']; [reflexivity|].
    pose proof Hp as Hp'. apply blank_cons in Hp'. destruct Hp' as [Hq _].
    destruct (N.eqb x q) eqn:E; [|reflexivity].
    apply N.eqb_eq in E. subst q. rewrite Hq in Hx. discriminate.
  - simpl. rewrite (IH Hrest s). reflexivity.
Qed.

Lemma skipn_found (post p s : pystr) :
  startswith p s = true ->
  skipn (List.length p) (s ++ post) = skipn (List.length p) s ++ post.
Proof.
  intros H. apply startswith_length in H.
  rewrite skipn_app.
  replace (List.length p - List.length s)%nat with 0%nat by lia.
  reflexivity.
Qed.

Lemma scan_once_blank_only (lim fuel room : nat) (post : pystr) :
  blank post = true -> scan_once lim (S fuel) room post = Malformed.
Proof.
  intros Hp. destruct post as [|p post']; [reflexivity|].
  apply blank_cons in Hp. destruct Hp as [Hc _].
  ws_cases Hc; reflexivity.
Qed.


#[local] Arguments skip_ws : simpl never.
#[local] Arguments scanstring : simpl never.
#[local] Arguments match_number : simpl never.
#[local] Arguments startswith : simpl never.
#[local] Arguments skipn : simpl never.
#[local] Arguments lit : simpl never.

(** One literal test of [scan_once], with and without the white space. *)
Lemma literal_blank (post : pystr) (Hp : blank post = true)
      (word : pystr) (v : pyvalue) (s : pystr)
      (other : scan pyvalue) (other' : scan pyvalue) :
  forallb (fun c => negb (is_ws c)) word = true ->
  other' = followed_by post other ->
  (if startswith word (s ++ post)
   then Scanned v (skipn (List.length word) (s ++ post))
   else other')
  = followed_by post
      (if startswith word s then Scanned v (skipn (List.length word) s)
       else other).
Proof.
  intros Hw ->.
  rewrite (startswith_blank post Hp word Hw s).
  destruct (startswith word s) eqn:E; [|reflexivity].
  rewrite (skipn_found post word s E). reflexivity.
Qed.

Lemma scan_nil (lim room : nat) (post : pystr) (fuel : nat) :
  (followed_by post (scan_once lim fuel room []) = scan_once lim fuel room [])
  /\ (forall acc, followed_by post (array_items lim fuel room [] acc)
                  = array_items lim fuel room [] acc)
  /\ (forall acc, followed_by post (object_members lim fuel room [] acc)
                  = object_members lim fuel room [] acc).
Proof.
  destruct fuel as [|[|fuel]]; repeat split; reflexivity.
Qed.

Lemma scan_blank (lim : nat) (post : pystr) (Hp : blank post = true)
      (fuel : nat) :
  (forall room s, scan_once lim fuel room (s ++ post)
                  = followed_by post (scan_once lim fuel room s)) /\
  (forall room s acc, array_items lim fuel room (s ++ post) acc
                      = followed_by post (array_items lim fuel room s acc)) /\
  (forall room s acc, object_members lim fuel room (s ++ post) acc
                      = followed_by post (object_members lim fuel room s acc)).
Proof.
  induction fuel as [|fuel (IHs & IHa & IHo)].
  { repeat split; reflexivity. }
  repeat split.
  - intros room s. destruct s as [|c t].
    { simpl app. rewrite (scan_once_blank_only lim fuel room post Hp). reflexivity. }
    rewrite <- app_comm_cons. simpl scan_once.
    destruct (N.eqb c quote_mark).
    { rewrite (scanstring_blank post Hp t).
      destruct (scanstring t [] None); reflexivity. }
    destruct (N.eqb c (chr "{")).
    { destruct room as [|room']; [reflexivity|].
      rewrite (skip_ws_app_blank t post Hp).
      destruct (skip_ws t) as [|c1 r]; [reflexivity|].
      rewrite <- app_comm_cons.
      destruct (N.eqb c1 (chr "}")); [reflexivity|].
      rewrite app_comm_cons. apply IHo. }
    destruct (N.eqb c (chr "[")).
    { destruct room as [|room']; [reflexivity|].
      rewrite (skip_ws_app_blank t post Hp).
      destruct (skip_ws t) as [|c1 r]; [reflexivity|].
      rewrite <- app_comm_cons.
      destruct (N.eqb c1 (chr "]")); [reflexivity|].
      rewrite app_comm_cons. apply IHa. }
    rewrite !app_comm_cons.
    apply (literal_blank post Hp (lit "null")); [reflexivity|].
    apply (literal_blank post Hp (lit "true")); [reflexivity|].
    apply (literal_blank post Hp (lit "false")); [reflexivity|].
    apply (literal_blank post Hp (lit "NaN")); [reflexivity|].
    apply (literal_blank post Hp (lit "Infinity")); [reflexivity|].
    apply (literal_blank post Hp (lit "-Infinity")); [reflexivity|].
    apply (match_number_blank lim post Hp).
  - intros room s acc. simpl array_items.
    rewrite (IHs room s).
    destruct (scan_once lim fuel room s) as [v r|e|]; try reflexivity.
    simpl followed_by. cbv beta iota.
    rewrite (skip_ws_app_blank r post Hp).
    destruct (skip_ws r) as [|c t]; [reflexivity|].
    rewrite <- app_comm_cons.
    destruct (N.eqb c (chr "]")); [reflexivity|].
    destruct (N.eqb c (chr ",")); [|reflexivity].
    rewrite (skip_ws_app_blank t post Hp).
    destruct (skip_ws t) as [|c' t'] eqn:E.
    + symmetry. apply (proj1 (proj2 (scan_nil lim room post fuel))).
    + apply IHa.
  - intros room s acc. destruct s as [|c t].
    { simpl app. destruct post as [|p post']; [reflexivity|].
      pose proof Hp as Hp'. apply blank_cons in Hp'. destruct Hp' as [Hc _].
      ws_cases Hc; reflexivity. }
    rewrite <- app_comm_cons. simpl object_members.
    destruct (N.eqb c quote_mark); [|reflexivity].
    rewrite (scanstring_blank post Hp t).
    destruct (scanstring t [] None) as [key r|e|]; try reflexivity.
    simpl followed_by. cbv beta iota.
    rewrite (skip_ws_app_blank r post Hp).
    destruct (skip_ws r) as [|c2 r2]; [reflexivity|].
    rewrite <- app_comm_cons.
    destruct (N.eqb c2 (chr ":")); [|reflexivity].
    rewrite (skip_ws_app_blank r2 post Hp).
    destruct (skip_ws r2) as [|c' r'] eqn:E.
    { rewrite <- (proj1 (scan_nil lim room post fuel)).
      destruct (scan_once lim fuel room []) as [v0 r0|e0|] eqn:E0; try reflexivity.
      destruct fuel; discriminate. }
    rewrite (IHs room (c' :: r')).
    destruct (scan_once lim fuel room (c' :: r')) as [v r3|e|]; try reflexivity.
    simpl followed_by. cbv beta iota.
    rewrite (skip_ws_app_blank r3 post Hp).
    destruct (skip_ws r3) as [|c3 r4]; [reflexivity|].
    rewrite <- app_comm_cons.
    destruct (N.eqb c3 (chr "}")); [reflexivity|].
    destruct (N.eqb c3 (chr ",")); [|reflexivity].
    rewrite (skip_ws_app_blank r4 post Hp).
    destruct (skip_ws r4) as [|c4 r5] eqn:E4.
    { symmetry. apply (proj2 (proj2 (scan_nil lim room post fuel))). }
    apply IHo.
Qed.

End BlankFacts.

Lemma loads_trailing_blank (lim room : nat) (s post : pystr) :
  blank post = true ->
  Decoder.loads lim room (s ++ post) = Decoder.loads lim room s.
Proof.
  intros Hp. unfold Decoder.loads.
  rewrite (BlankFacts.startswith_blank post Hp [65279%N] eq_refl s).
  destruct (startswith [65279%N] s); [reflexivity|].
  rewrite (BlankFacts.skip_ws_app_blank s post Hp).
  pose proof (DecoderFacts.skip_ws_length s) as Hlen.
  destruct (Decoder.skip_ws s) as [|c r] eqn:E.
  { unfold Decoder.fuel_for. rewrite !Nat.add_1_r. reflexivity. }
  rewrite (proj1 (BlankFacts.scan_blank lim post Hp _)).
  rewrite (FuelFacts.scan_once_fuel lim room (c :: r)
             (Decoder.fuel_for (s ++ post)) (Decoder.fuel_for s)).
  2:{ unfold Decoder.fuel_for. rewrite length_app. lia. }
  2:{ unfold Decoder.fuel_for. lia. }
  destruct (Decoder.scan_once lim (Decoder.fuel_for s) room (c :: r))
    as [v r1|e|]; try reflexivity.
  simpl followed_by. cbv beta iota.
  rewrite (BlankFacts.skip_ws_app_blank r1 post Hp).
  destruct (Decoder.skip_ws r1); reflexivity.
Qed.

Lemma loads_leading_blank (lim room : nat) (pre s : pystr) :
  blank pre = true ->
  Decoder.loads lim room (pre ++ s) = Decoder.loads lim room s.
Proof.
  intros Hp. destruct pre as [|p pre']; [reflexivity|].
  unfold Decoder.loads.
  rewrite (BlankFacts.skip_ws_blank_app (p :: pre') s Hp).
  replace (startswith [65279%N] ((p :: pre') ++ s)) with false.
  2:{ apply BlankFacts.blank_cons in Hp. destruct Hp as [Hc _].
      apply BlankFacts.is_ws_cases in Hc.
      destruct Hc as [Hc|[Hc|[Hc|Hc]]]; subst p; reflexivity. }
  pose proof (DecoderFacts.skip_ws_length s) as Hlen.
  rewrite (FuelFacts.scan_once_fuel lim room (Decoder.skip_ws s)
             (Decoder.fuel_for ((p :: pre') ++ s)) (Decoder.fuel_for s)).
  2:{ unfold Decoder.fuel_for. rewrite length_app. lia. }
  2:{ unfold Decoder.fuel_for. lia. }
  destruct (startswith [65279%N] s) eqn:Eb; [|reflexivity].
  destruct s as [|c t]; [discriminate|].
  unfold startswith in Eb. apply andb_true_iff in Eb. destruct Eb as [Eb _].
  apply N.eqb_eq in Eb. subst c.
  unfold Decoder.fuel_for. rewrite Nat.add_1_r. reflexivity.
Qed.

Lemma json_loads_trailing_blank (s post : pystr) :
  blank post = true -> json_loads (s ++ post) = json_loads s.
Proof. apply loads_trailing_blank. Qed.

Lemma json_loads_leading_blank (pre s : pystr) :
  blank pre = true -> json_loads (pre ++ s) = json_loads s.
Proof. apply loads_leading_blank. Qed.

(** X2: white space around the JSON text of [--execute] changes nothing:
    the run is the one of the bare text, whether that succeeds or fails. *)
Theorem payload_padding_ignored (prog pre payload post : pystr)
        (rest : list pystr) (w : world) :
  blank pre = true ->
  blank post = true ->
  run (prog :: lit "--execute" :: (pre ++ payload ++ post) :: rest) w
    = run (prog :: lit "--execute" :: payload :: rest) w.
Proof.
  intros Hpre Hpost. unfold run, run_in. rewrite !main_execute.
  change (json_loads_in default_runtime (pre ++ payload ++ post))
    with (json_loads (pre ++ payload ++ post)).
  rewrite (json_loads_leading_blank pre (payload ++ post) Hpre).
  rewrite (json_loads_trailing_blank payload post Hpost).
  reflexivity.
Qed.

(** * What every run does *)

(** X3: a run either prints once and exits with status 0, the error stream
    untouched, or prints nothing, reports one uncaught exception and exits
    with status 1; it never prints before it fails. *)
Theorem run_prints_or_reports (argv : list pystr) (w : world) :
  (exists t : pytext, run argv w = (0%Z, printed t w))
  \/ (exists e : exception, run argv w = (1%Z, traceback e w)).
Proof.
  destruct (schema_mode argv) eqn:Hs.
  { left. eexists. apply (schema_mode_run argv w Hs). }
  destruct (execute_mode argv) eqn:He.
  2:{ left. eexists. apply (usage_mode_run argv w Hs He). }
  rewrite (execute_mode_run argv w Hs He).
  destruct (json_loads (arg argv 2)) as [e|v].
  { right. eexists. reflexivity. }
  destruct v as [ |b|z|f|s|items|d]; try (right; eexists; reflexivity).
  destruct (dict_lookup (lit "location") d) as [v|];
    [|left; eexists; reflexivity].
  destruct v as [ |b|z|f|s|items|items]; try (left; eexists; reflexivity).
  destruct (forallb scalar s); [left|right]; eexists; reflexivity.
Qed.

(** X4: in execute mode, a second argument on which [json.loads] raises
    ends the run with that exception uncaught: exit status 1, one report on
    the error stream, nothing printed.  The exception is [JSONDecodeError]
    for a text that is not JSON, [ValueError] for an integer with more
    digits than [int()] accepts, [RecursionError] for arrays and objects
    nested beyond the recursion limit. *)
Theorem execute_rejected_payload (prog payload : pystr) (rest : list pystr)
        (e : exception) (w : world) :
  json_loads payload = inl e ->
  run (prog :: lit "--execute" :: payload :: rest) w = (1%Z, traceback e w)
  /\ stdout (snd (run (prog :: lit "--execute" :: payload :: rest) w))
     = stdout w
  /\ (e = JSONDecodeError \/ e = ValueError \/ e = RecursionError).
Proof.
  intros H.
  rewrite (@run_execute_raise prog payload rest e w H).
  split; [reflexivity|]. split; [reflexivity|].
  apply (@json_loads_raises payload e H).
Qed.

(** The three exceptions, each on a payload: a text that is not JSON, an
    integer of 4301 digits, 996 opening brackets. *)
Lemma execute_rejected_payload_witness :
  (json_loads (lit "not json") = inl JSONDecodeError
   /\ run [lit "weather.py"; lit "--execute"; lit "not json"] idle
        = (1%Z, traceback JSONDecodeError idle))
  /\ (json_loads (repeat (chr "7") 4301) = inl ValueError
      /\ run [lit "weather.py"; lit "--execute"; repeat (chr "7") 4301] idle
           = (1%Z, traceback ValueError idle))
  /\ (json_loads (repeat (chr "[") 996) = inl RecursionError
      /\ run [lit "weather.py"; lit "--execute"; repeat (chr "[") 996] idle
           = (1%Z, traceback RecursionError idle)).
Proof.
  assert (H1 : json_loads (lit "not json") = inl JSONDecodeError)
    by reflexivity.
  assert (H2 : json_loads (repeat (chr "7") 4301) = inl ValueError)
    by (vm_compute; reflexivity).
  assert (H3 : json_loads (repeat (chr "[") 996) = inl RecursionError)
    by (vm_compute; reflexivity).
  split; [|split]; (split; [assumption|]).
  - apply (execute_rejected_payload (lit "weather.py") (lit "not json") []
             JSONDecodeError idle H1).
  - apply (execute_rejected_payload (lit "weather.py") (repeat (chr "7") 4301)
             [] ValueError idle H2).
  - apply (execute_rejected_payload (lit "weather.py") (repeat (chr "[") 996)
             [] RecursionError idle H3).
Defined.

(** X5: an empty second argument, or one made of white space only, is
    rejected like any malformed JSON. *)
Theorem execute_blank_payload (prog payload : pystr) (rest : list pystr)
        (w : world) :
  blank payload = true ->
  run (prog :: lit "--execute" :: payload :: rest) w
    = (1%Z, traceback JSONDecodeError w).
Proof.
  intros Hb.
  apply (@run_execute_raise prog payload rest JSONDecodeError w).
  change payload with ([] ++ payload).
  rewrite (json_loads_trailing_blank [] payload Hb). reflexivity.
Qed.

Lemma execute_blank_payload_witness :
  blank [] = true
  /\ run [lit "weather.py"; lit "--execute"; []] idle
       = (1%Z, traceback JSONDecodeError idle).
Proof.
  split; [reflexivity|].
  apply (execute_blank_payload (lit "weather.py") [] [] idle).
  reflexivity.
Defined.

(** X6: the name the script was started under, [sys.argv[0]], is never
    read: two runs that differ in it only are equal. *)
Theorem program_name_ignored (prog prog' : pystr) (args : list pystr)
        (w : world) :
  run (prog :: args) w = run (prog' :: args) w.
Proof.
  unfold run, run_in, main_in, arg. simpl List.length.
  destruct args as [|a [|b args']]; reflexivity.
Qed.

(** * Objects of string members *)

Module ObjectFacts.
Import Decoder.

Lemma skip_ws_stop (c : codepoint) (t : pystr) :
  is_ws c = false -> skip_ws (c :: t) = c :: t.
Proof. intros H. simpl. rewrite H. reflexivity. Qed.

Lemma member_text_app (m : pystr * pystr) (tail : pystr) :
  member_text m ++ tail
  = quote_mark :: fst m
      ++ quote_mark :: chr ":" :: chr " " :: quote_mark :: snd m
      ++ quote_mark :: tail.
Proof.
  unfold member_text. simpl. rewrite <- app_assoc. simpl.
  rewrite <- app_assoc. reflexivity.
Qed.

(** One turn of the loop over the members of an object. *)
Lemma member_step (lim fuel room : nat) (k v tail : pystr) (acc : pydict) :
  forallb plain_char k = true ->
  forallb plain_char v = true ->
  object_members lim (S (S fuel)) room (member_text (k, v) ++ tail) acc
  = match skip_ws tail with
    | c3 :: r4 =>
        if N.eqb c3 (chr "}")
        then Scanned (PyDict (dict_set k (PyStr v) acc)) r4
        else if N.eqb c3 (chr ",")
        then object_members lim (S fuel) room (skip_ws r4)
               (dict_set k (PyStr v) acc)
        else Malformed
    | [] => Malformed
    end.
Proof.
  intros Hk Hv. rewrite member_text_app. simpl fst. simpl snd.
  cbn [object_members]. rewrite N.eqb_refl.
  rewrite (scanstring_plain k _ [] Hk). simpl rev. simpl app.
  rewrite (skip_ws_stop (chr ":") _ eq_refl). rewrite N.eqb_refl.
  change (skip_ws (chr " " :: quote_mark :: v ++ quote_mark :: tail))
    with (skip_ws (quote_mark :: v ++ quote_mark :: tail)).
  rewrite (skip_ws_stop quote_mark _ eq_refl).
  cbn [scan_once]. rewrite N.eqb_refl.
  rewrite (scanstring_plain v tail [] Hv). simpl rev. simpl app.
  reflexivity.
Qed.

Lemma members_text_starts (m : pystr * pystr) (ms : list (pystr * pystr))
      (tail : pystr) :
  skip_ws (members_text (m :: ms) ++ tail) = members_text (m :: ms) ++ tail.
Proof.
  cbn [members_text]. rewrite <- app_assoc, member_text_app.
  apply skip_ws_stop. reflexivity.
Qed.

Lemma member_text_length (m : pystr * pystr) :
  (1 <= List.length (member_text m))%nat.
Proof. unfold member_text. simpl. lia. Qed.

Lemma members_text_length (ms : list (pystr * pystr)) :
  (List.length ms <= List.length (members_text ms))%nat.
Proof.
  induction ms as [|x ms IH]; [simpl; lia|].
  cbn [members_text]. rewrite length_app.
  pose proof (member_text_length x).
  destruct ms as [|y ms]; [simpl; lia|].
  cbn [List.length] in IH |- *. lia.
Qed.

Lemma members_loop (lim room : nat) (ms : list (pystr * pystr)) :
  forall (m : pystr * pystr) (acc : pydict) (fuel : nat) (rest : pystr),
    plain_members (m :: ms) = true ->
    (List.length (m :: ms) < fuel)%nat ->
    object_members lim fuel room (members_text (m :: ms) ++ chr "}" :: rest) acc
    = Scanned
        (PyDict
           (fold_left (fun d x => dict_set (fst x) (PyStr (snd x)) d)
              (m :: ms) acc))
        rest.
Proof.
  induction ms as [|m2 ms IH]; intros [k v] acc fuel rest Hplain Hfuel.
  - destruct fuel as [|[|fuel]]; simpl in Hfuel; try lia.
    unfold plain_members in Hplain. simpl in Hplain.
    rewrite andb_true_r in Hplain.
    apply andb_true_iff in Hplain. destruct Hplain as [Hk Hv].
    cbn [members_text]. rewrite app_nil_r.
    rewrite (member_step lim fuel room k v _ acc Hk Hv).
    rewrite (skip_ws_stop (chr "}") _ eq_refl). rewrite N.eqb_refl.
    reflexivity.
  - destruct fuel as [|[|fuel]]; simpl in Hfuel; try lia.
    unfold plain_members in Hplain.
    change (forallb _ ((k, v) :: m2 :: ms))
      with ((forallb plain_char k && forallb plain_char v)
            && plain_members (m2 :: ms))%bool in Hplain.
    apply andb_true_iff in Hplain. destruct Hplain as [Hkv Hrest].
    apply andb_true_iff in Hkv. destruct Hkv as [Hk Hv].
    change (members_text ((k, v) :: m2 :: ms))
      with (member_text (k, v) ++ chr "," :: chr " " :: members_text (m2 :: ms)).
    rewrite <- app_assoc.
    rewrite (member_step lim fuel room k v _ acc Hk Hv).
    rewrite <- !app_comm_cons.
    rewrite (skip_ws_stop (chr ",") _ eq_refl).
    replace (N.eqb (chr ",") (chr "}")) with false by reflexivity.
    rewrite N.eqb_refl.
    change (skip_ws (chr " " :: members_text (m2 :: ms) ++ chr "}" :: rest))
      with (skip_ws (members_text (m2 :: ms) ++ chr "}" :: rest)).
    rewrite members_text_starts.
    rewrite (IH m2 (dict_set k (PyStr v) acc) (S fuel) rest Hrest)
      by (simpl; simpl in Hfuel; lia).
    reflexivity.
Qed.

End ObjectFacts.

Lemma dict_lookup_fold (k : pystr) (ms : list (pystr * pystr)) :
  forall d : pydict,
    dict_lookup k (fold_left (fun d x => dict_set (fst x) (PyStr (snd x)) d) ms d)
    = match last_value k ms with
      | Some v => Some (PyStr v)
      | None => dict_lookup k d
      end.
Proof.
  induction ms as [|[k' v] ms IH]; intros d; [reflexivity|].
  simpl fold_left. rewrite IH. simpl last_value.
  destruct (last_value k ms) as [v'|]; [reflexivity|].
  destruct (str_eqb k k') eqn:E.
  - apply str_eqb_eq in E. subst k'. apply dict_lookup_set_same.
  - apply str_eqb_neq in E. apply dict_lookup_set_other. exact E.
Qed.

Lemma loads_object (lim room : nat) (ms : list (pystr * pystr)) :
  plain_members ms = true ->
  Decoder.loads lim (S room) (object_text ms)
  = inr (PyDict (fold_left (fun d x => dict_set (fst x) (PyStr (snd x)) d) ms [])).
Proof.
  intros Hplain. destruct ms as [|m ms]; [reflexivity|].
  unfold Decoder.loads, object_text.
  replace (startswith [65279%N] (chr "{" :: members_text (m :: ms) ++ [chr "}"]))
    with false by reflexivity.
  rewrite (ObjectFacts.skip_ws_stop (chr "{") _ eq_refl).
  unfold Decoder.fuel_for. rewrite Nat.add_1_r.
  cbn [Decoder.scan_once].
  replace (N.eqb (chr "{") quote_mark) with false by reflexivity.
  rewrite N.eqb_refl.
  rewrite ObjectFacts.members_text_starts.
  assert (Hstart : exists t, members_text (m :: ms) ++ [chr "}"] = quote_mark :: t).
  { cbn [members_text]. rewrite <- app_assoc, ObjectFacts.member_text_app.
    eexists. reflexivity. }
  destruct Hstart as [t Ht].
  assert (Hlen : (List.length (m :: ms)
                  < 2 * List.length (chr "{" :: members_text (m :: ms) ++ [chr "}"]))%nat).
  { pose proof (ObjectFacts.members_text_length (m :: ms)) as Hl.
    cbn [List.length] in Hl |- *. rewrite length_app. lia. }
  pose proof (ObjectFacts.members_loop lim room ms m [] _ [] Hplain Hlen) as Hloop.
  rewrite Ht in Hloop |- *.
  replace (N.eqb quote_mark (chr "}")) with false by reflexivity.
  rewrite Hloop. reflexivity.
Qed.

Lemma json_loads_object (ms : list (pystr * pystr)) :
  plain_members ms = true ->
  json_loads (object_text ms)
  = inr (PyDict (fold_left (fun d x => dict_set (fst x) (PyStr (snd x)) d) ms [])).
Proof. apply (loads_object 4300 994 ms). Qed.

(** X7: for an object of string members written with plain characters, the
    run prints the sentence for the value of the last member named
    "location", other members being ignored, and the sentence for "unknown"
    when no member has that name; the value printed is to be made of
    Unicode scalar values. *)
Theorem run_object_of_strings (prog : pystr) (ms : list (pystr * pystr))
        (rest : list pystr) (w : world) :
  plain_members ms = true ->
  forallb scalar (match last_value (lit "location") ms with
                  | Some s => s
                  | None => lit "unknown"
                  end) = true ->
  run (prog :: lit "--execute" :: object_text ms :: rest) w
  = (0%Z,
     printed
       (chars (sentence (match last_value (lit "location") ms with
                         | Some s => s
                         | None => lit "unknown"
                         end))) w).
Proof.
  intros Hplain Hsc.
  rewrite (@run_execute_dict prog (object_text ms) rest _ w
             (json_loads_object ms Hplain)).
  rewrite (dict_lookup_fold (lit "location") ms []).
  simpl dict_lookup. rewrite weather_text_writable.
  destruct (last_value (lit "location") ms) as [s|];
    rewrite weather_text_sentence; [rewrite Hsc|]; reflexivity.
Qed.

Lemma run_object_of_strings_witness :
  plain_members [(lit "location", lit "Oslo"); (lit "units", lit "metric");
                 (lit "location", lit "Lima")] = true
  /\ forallb scalar (lit "Lima") = true
  /\ run [lit "weather.py"; lit "--execute";
          object_text [(lit "location", lit "Oslo"); (lit "units", lit "metric");
                       (lit "location", lit "Lima")]] idle
     = (0%Z, printed (chars (sentence (lit "Lima"))) idle).
Proof.
  split; [reflexivity|]. split; [reflexivity|].
  apply (run_object_of_strings (lit "weather.py")
           [(lit "location", lit "Oslo"); (lit "units", lit "metric");
            (lit "location", lit "Lima")] [] idle);
    reflexivity.
Defined.

(** * Strings written by the encoder, read by the decoder *)

Module EscapeFacts.
Import Decoder.
Import Encoder.

Local Open Scope N_scope.

Lemma hexval_hex_digit (n : N) : n < 16 -> hexval (hex_digit n) = Some n.
Proof.
  intros Hn. unfold hex_digit, hexval.
  destruct (n <? 10) eqn:E.
  - apply N.ltb_lt in E.
    replace ((48 <=? 48 + n) && (48 + n <=? 57))%bool with true.
    + f_equal. lia.
    + symmetry. apply andb_true_iff. split; apply N.leb_le; lia.
  - apply N.ltb_ge in E.
    replace ((48 <=? 87 + n) && (87 + n <=? 57))%bool with false.
    + replace ((97 <=? 87 + n) && (87 + n <=? 102))%bool with true.
      * f_equal. lia.
      * symmetry. apply andb_true_iff. split; apply N.leb_le; lia.
    + symmetry. apply andb_false_iff. right. apply N.leb_gt. lia.
Qed.

Lemma hex4_digits (u : N) :
  u < 65536 ->
  hex4 (hex_digit (u / 4096 mod 16)) (hex_digit (u / 256 mod 16))
       (hex_digit (u / 16 mod 16)) (hex_digit (u mod 16)) = Some u.
Proof.
  intros Hu. unfold hex4.
  rewrite !hexval_hex_digit by (apply N.mod_lt; discriminate).
  f_equal.
  zify. Z.to_euclidean_division_equations. lia.
Qed.

(** The decoder on a [\u] escape with four hexadecimal digits. *)
Lemma scanstring_u (h1 h2 h3 h4 : codepoint) (t2 acc : pystr)
      (pending : option codepoint) :
  scanstring (chr "\" :: chr "u" :: h1 :: h2 :: h3 :: h4 :: t2) acc pending
  = match hex4 h1 h2 h3 h4 with
    | Some u =>
        match pending with
        | Some h =>
            if is_low_surrogate u
            then scanstring t2 (join_surrogates h u :: acc) None
            else if is_high_surrogate u
            then scanstring t2 (h :: acc) (Some u)
            else scanstring t2 (u :: h :: acc) None
        | None =>
            if is_high_surrogate u
            then scanstring t2 acc (Some u)
            else scanstring t2 (u :: acc) None
        end
    | None => Malformed
    end.
Proof. reflexivity. Qed.

Lemma scanstring_u_escape (u : N) (t2 acc : pystr) (pending : option codepoint) :
  u < 65536 ->
  scanstring (u_escape u ++ t2) acc pending
  = match pending with
    | Some h =>
        if is_low_surrogate u
        then scanstring t2 (join_surrogates h u :: acc) None
        else if is_high_surrogate u
        then scanstring t2 (h :: acc) (Some u)
        else scanstring t2 (u :: h :: acc) None
    | None =>
        if is_high_surrogate u
        then scanstring t2 acc (Some u)
        else scanstring t2 (u :: acc) None
    end.
Proof.
  intros Hu. unfold u_escape. rewrite <- !app_comm_cons. simpl app.
  rewrite scanstring_u, (hex4_digits u Hu). reflexivity.
Qed.

(** What the encoder writes for one character, the decoder reads back as
    that character. *)
Lemma scanstring_escape_char (c : codepoint) (t acc : pystr) :
  scalar c = true ->
  scanstring (escape_char c ++ t) acc None = scanstring t (c :: acc) None.
Proof.
  intros Hc. unfold escape_char.
  destruct (c =? quote_mark) eqn:E1.
  { apply N.eqb_eq in E1. subst c. reflexivity. }
  destruct (c =? chr "\") eqn:E2.
  { apply N.eqb_eq in E2. subst c. reflexivity. }
  destruct (c =? 10) eqn:E3.
  { apply N.eqb_eq in E3. subst c. reflexivity. }
  destruct (c =? 13) eqn:E4.
  { apply N.eqb_eq in E4. subst c. reflexivity. }
  destruct (c =? 9) eqn:E5.
  { apply N.eqb_eq in E5. subst c. reflexivity. }
  destruct (c =? 8) eqn:E6.
  { apply N.eqb_eq in E6. subst c. reflexivity. }
  destruct (c =? 12) eqn:E7.
  { apply N.eqb_eq in E7. subst c. reflexivity. }
  destruct ((32 <=? c) && (c <=? 126))%bool eqn:E8.
  { apply andb_true_iff in E8. destruct E8 as [Hlo _].
    apply N.leb_le in Hlo.
    simpl app. simpl scanstring. rewrite E1, E2.
    replace (c <? 32) with false by (symmetry; apply N.ltb_ge; exact Hlo).
    reflexivity. }
  unfold scalar in Hc.
  destruct (c <? 65536) eqn:E9.
  - apply N.ltb_lt in E9.
    rewrite (scanstring_u_escape c _ _ None E9).
    replace (is_high_surrogate c) with false; [reflexivity|].
    symmetry. unfold is_high_surrogate.
    apply orb_true_iff in Hc. destruct Hc as [Hc|Hc].
    + apply N.ltb_lt in Hc. apply andb_false_iff. left. apply N.leb_gt. lia.
    + apply andb_true_iff in Hc. destruct Hc as [Hc _]. apply N.ltb_lt in Hc.
      apply andb_false_iff. right. apply N.leb_gt. lia.
  - apply N.ltb_ge in E9.
    assert (Hmax : c < 1114112).
    { apply orb_true_iff in Hc. destruct Hc as [Hc|Hc].
      - apply N.ltb_lt in Hc. lia.
      - apply andb_true_iff in Hc. destruct Hc as [_ Hc].
        apply N.ltb_lt in Hc. exact Hc. }
    set (v := c - 65536).
    assert (Hv : c = 65536 + v) by (subst v; lia).
    assert (Hq : v / 1024 < 1024).
    { apply N.Div0.div_lt_upper_bound. subst v. lia. }
    assert (Hr : v mod 1024 < 1024) by (apply N.mod_lt; discriminate).
    pose proof (N.div_mod v 1024 ltac:(discriminate)) as Hdm.
    clearbody v.
    set (q := v / 1024) in *. set (r := v mod 1024) in *.
    clearbody q r.
    rewrite <- app_assoc.
    rewrite (scanstring_u_escape _ _ _ None) by lia.
    replace (is_high_surrogate (55296 + q)) with true.
    2:{ symmetry. unfold is_high_surrogate.
        apply andb_true_iff. split; apply N.leb_le; lia. }
    rewrite (scanstring_u_escape _ _ _ (Some (55296 + q))) by lia.
    replace (is_low_surrogate (56320 + r)) with true.
    2:{ symmetry. unfold is_low_surrogate.
        apply andb_true_iff. split; apply N.leb_le; lia. }
    replace (join_surrogates (55296 + q) (56320 + r)) with c;
      [reflexivity|].
    unfold join_surrogates. lia.
Qed.

Lemma scanstring_encoded (s : pystr) :
  forall (rest acc : pystr),
    forallb scalar s = true ->
    scanstring (flat_map escape_char s ++ quote_mark :: rest) acc None
    = Scanned (rev acc ++ s) rest.
Proof.
  induction s as [|c s IH]; intros rest acc Hs.
  - simpl. rewrite app_nil_r. reflexivity.
  - simpl in Hs. apply andb_true_iff in Hs. destruct Hs as [Hc Hs].
    simpl flat_map. rewrite <- app_assoc.
    rewrite (scanstring_escape_char c _ acc Hc).
    rewrite (IH rest (c :: acc) Hs). simpl. rewrite <- app_assoc. reflexivity.
Qed.

End EscapeFacts.

Lemma loads_encoded_location (lim room : nat) (s : pystr) :
  forallb scalar s = true ->
  Decoder.loads lim (S room) (encoded_location_payload s)
  = inr (PyDict [(lit "location", PyStr s)]).
Proof.
  intros Hs.
  unfold Decoder.loads, encoded_location_payload, Encoder.encode_str.
  change (json_lit "{'location': ")
    with (chr "{" :: quote_mark :: lit "location"
            ++ quote_mark :: chr ":" :: [chr " "]).
  unfold Decoder.fuel_for.
  set (n := List.length _).
  assert (Hn : (2 * n + 1 = S (S (S (2 * n - 2))))%nat).
  { subst n. simpl. rewrite length_app. simpl. lia. }
  rewrite Hn. clear Hn. generalize (2 * n - 2)%nat. clear n. intros fuel.
  unfold chr. simpl.
  rewrite <- app_assoc. simpl app.
  rewrite (EscapeFacts.scanstring_encoded s
             (@cons codepoint 125%N (@nil codepoint)) [] Hs).
  reflexivity.
Qed.

Lemma json_loads_encoded_location (s : pystr) :
  forallb scalar s = true ->
  json_loads (encoded_location_payload s)
  = inr (PyDict [(lit "location", PyStr s)]).
Proof. apply (loads_encoded_location 4300 994 s). Qed.

(** X8: a location string that the caller encodes the way [json.dumps]
    does, with its escapes, comes out as itself in the sentence, for every
    string of Unicode scalar values. *)
Theorem run_encoded_location (prog s : pystr) (rest : list pystr) (w : world) :
  forallb scalar s = true ->
  run (prog :: lit "--execute" :: encoded_location_payload s :: rest) w
    = (0%Z, printed (chars (sentence s)) w).
Proof.
  intros Hs.
  apply (@run_execute_string prog (encoded_location_payload s) rest
           [(lit "location", PyStr s)] s w (json_loads_encoded_location s Hs));
    [reflexivity|exact Hs].
Qed.

Lemma run_encoded_location_witness :
  forallb scalar [chr "a"; quote_mark; 10%N; 233%N; 128512%N] = true
  /\ run [lit "weather.py"; lit "--execute";
          encoded_location_payload [chr "a"; quote_mark; 10%N; 233%N; 128512%N]]
         idle
     = (0%Z,
        printed (chars (sentence [chr "a"; quote_mark; 10%N; 233%N; 128512%N]))
          idle).
Proof.
  split; [reflexivity|].
  apply (run_encoded_location (lit "weather.py")
           [chr "a"; quote_mark; 10%N; 233%N; 128512%N] [] idle).
  reflexivity.
Defined.

(** * Integers written in decimal, read by the decoder *)

Module NumberFacts.
Import Decoder.
Import DecimalFacts.

Lemma digit_cases (c : codepoint) :
  is_digit c = true ->
  c = 48%N \/ c = 49%N \/ c = 50%N \/ c = 51%N \/ c = 52%N
  \/ c = 53%N \/ c = 54%N \/ c = 55%N \/ c = 56%N \/ c = 57%N.
Proof.
  unfold is_digit. rewrite andb_true_iff, !N.leb_le. lia.
Qed.

Ltac digit_cases H :=
  apply digit_cases in H;
  destruct H as [H|[H|[H|[H|[H|[H|[H|[H|[H|H]]]]]]]]]; subst.

Lemma scan_once_digit (lim fuel room : nat) (c : codepoint) (t : pystr) :
  is_digit c = true ->
  scan_once lim (S fuel) room (c :: t) = match_number lim (c :: t).
Proof. intros H. digit_cases H; reflexivity. Qed.

Lemma scan_once_minus (lim fuel room : nat) (c : codepoint) (t : pystr) :
  is_digit c = true ->
  scan_once lim (S fuel) room (chr "-" :: c :: t)
  = match_number lim (chr "-" :: c :: t).
Proof. intros H. digit_cases H; reflexivity. Qed.

Lemma span_digits_run (ds rest : pystr) :
  forallb is_digit ds = true ->
  delimited rest = true ->
  span_digits (ds ++ rest) = (ds, rest).
Proof.
  intros Hds Hrest. induction ds as [|c ds IH]; simpl.
  - destruct rest as [|r rest]; [reflexivity|].
    simpl in Hrest. apply andb_true_iff in Hrest. destruct Hrest as [Hrest _].
    apply andb_true_iff in Hrest. destruct Hrest as [Hrest _].
    apply andb_true_iff in Hrest. destruct Hrest as [Hrest _].
    apply negb_true_iff in Hrest. simpl. rewrite Hrest. reflexivity.
  - simpl in Hds. apply andb_true_iff in Hds. destruct Hds as [Hc Hds].
    rewrite Hc, (IH Hds). reflexivity.
Qed.

Lemma span_fraction_delimited (rest : pystr) :
  delimited rest = true -> span_fraction rest = ([], rest).
Proof.
  destruct rest as [|c rest]; [reflexivity|]. simpl. intros H.
  apply andb_true_iff in H. destruct H as [H _].
  apply andb_true_iff in H. destruct H as [H _].
  apply andb_true_iff in H. destruct H as [_ H].
  apply negb_true_iff in H. rewrite H. reflexivity.
Qed.

Lemma span_exponent_delimited (rest : pystr) :
  delimited rest = true -> span_exponent rest = ([], rest).
Proof.
  destruct rest as [|c rest]; [reflexivity|]. intros H.
  unfold delimited in H.
  apply andb_true_iff in H. destruct H as [H HE].
  apply andb_true_iff in H. destruct H as [_ He].
  apply negb_true_iff in He, HE.
  unfold span_exponent. rewrite He, HE. reflexivity.
Qed.


Lemma of_uint_acc_fold (d : Decimal.uint) :
  forall acc : positive,
    fold_left (fun a c => (10 * a + Z.of_N (c - 48))%Z)
      (lit (NilEmpty.string_of_uint d)) (Z.pos acc)
    = Z.pos (Pos.of_uint_acc d acc).
Proof.
  induction d; intros acc; cbn [NilEmpty.string_of_uint Pos.of_uint_acc];
    try reflexivity;
    rewrite lit_cons; cbn [fold_left]; rewrite <- IHd; f_equal;
    match goal with
    | |- context [Z.of_N (chr ?a - 48)] =>
        let v := eval vm_compute in (Z.of_N (chr a - 48)) in
        change (Z.of_N (chr a - 48)) with v
    end; lia.
Qed.

Lemma of_uint_fold (d : Decimal.uint) :
  int_of_digits (lit (NilEmpty.string_of_uint d)) = Z.of_N (Pos.of_uint d).
Proof.
  unfold int_of_digits.
  induction d; cbn [NilEmpty.string_of_uint Pos.of_uint];
    try reflexivity;
    rewrite lit_cons; cbn [fold_left];
    match goal with
    | |- context [Z.of_N (chr ?a - 48)] =>
        let v := eval vm_compute in (Z.of_N (chr a - 48)) in
        change (Z.of_N (chr a - 48)) with v
    end;
    first [ exact IHd | apply (of_uint_acc_fold d) ].
Qed.

Lemma nzhead_shape (d : Decimal.uint) :
  match Decimal.nzhead d with Decimal.D0 _ => False | _ => True end.
Proof. induction d; simpl; auto. Qed.

(** The decimal digits of a positive number: a nonzero digit first. *)
Lemma to_uint_shape (p : positive) :
  exists (c : codepoint) (t : pystr),
    lit (NilEmpty.string_of_uint (Pos.to_uint p)) = c :: t
    /\ is_digit c = true /\ N.eqb c 48 = false.
Proof.
  pose proof (DecimalPos.Unsigned.to_of (Pos.to_uint p)) as Hnorm.
  rewrite DecimalPos.Unsigned.of_to in Hnorm. simpl N.to_uint in Hnorm.
  pose proof (DecimalPos.Unsigned.to_uint_nonzero p) as Hnz.
  pose proof (nzhead_shape (Pos.to_uint p)) as Hshape.
  unfold Decimal.unorm in Hnorm.
  destruct (Decimal.nzhead (Pos.to_uint p)) eqn:E;
    try contradiction; try congruence;
    rewrite Hnorm; cbn [NilEmpty.string_of_uint]; rewrite lit_cons;
    eexists; eexists; (split; [reflexivity|split; reflexivity]).
Qed.

Lemma number_tail (lim : nat) (neg : bool) (c : codepoint) (t rest : pystr) :
  is_digit c = true ->
  N.eqb c 48 = false ->
  forallb is_digit t = true ->
  delimited rest = true ->
  match span_integer ((c :: t) ++ rest) with
  | None => Malformed
  | Some (ip, r1) =>
      let (fp, r2) := span_fraction r1 in
      let (ep, r3) := span_exponent r2 in
      match fp, ep with
      | [], [] =>
          if too_long lim ip then Failed ValueError
          else
            let n := int_of_digits ip in
            Scanned (PyInt (if neg then (- n)%Z else n)) r3
      | _, _ =>
          Scanned
            (PyFloat (FloatOf ((if neg then [chr "-"] else []) ++ ip ++ fp ++ ep)))
            r3
      end
  end
  = if too_long lim (c :: t) then Failed ValueError
    else Scanned (PyInt (if neg then (- int_of_digits (c :: t))%Z
                         else int_of_digits (c :: t))) rest.
Proof.
  intros Hc Hnz Ht Hrest.
  rewrite <- app_comm_cons. unfold span_integer. rewrite Hnz, Hc.
  rewrite (span_digits_run t rest Ht Hrest).
  rewrite (span_fraction_delimited rest Hrest).
  rewrite (span_exponent_delimited rest Hrest).
  reflexivity.
Qed.

Lemma digits_value (p : positive) :
  int_of_digits (lit (NilEmpty.string_of_uint (Pos.to_uint p))) = Z.pos p.
Proof.
  rewrite of_uint_fold, DecimalPos.Unsigned.of_to. reflexivity.
Qed.

(** The decoder reads the decimal text of an integer as that integer,
    unless it has more digits than the limit. *)
Lemma scan_once_decimal (lim fuel room : nat) (z : Z) (rest : pystr) :
  delimited rest = true ->
  scan_once lim (S fuel) room (decimal z ++ rest)
  = if too_long lim (decimal (Z.abs z)) then Failed ValueError
    else Scanned (PyInt z) rest.
Proof.
  intros Hrest. destruct z as [|p|p].
  - change (decimal (Z.abs 0)) with [48%N].
    change (decimal 0) with [48%N]. simpl app.
    rewrite (scan_once_digit lim fuel room 48%N rest eq_refl).
    unfold match_number.
    change (N.eqb 48%N (chr "-")) with false. cbv iota.
    change (span_integer (48%N :: rest)) with (Some ([48%N], rest)).
    cbv beta iota.
    rewrite (span_fraction_delimited rest Hrest).
    rewrite (span_exponent_delimited rest Hrest).
    reflexivity.
  - change (Z.abs (Z.pos p)) with (Z.pos p). rewrite decimal_pos.
    pose proof (uint_digits (Pos.to_uint p)) as Hall.
    pose proof (digits_value p) as Hval.
    destruct (to_uint_shape p) as (c & t & Heq & Hc & Hnz).
    rewrite Heq in Hall, Hval |- *.
    cbn [forallb] in Hall. apply andb_true_iff in Hall. destruct Hall as [_ Ht].
    rewrite <- app_comm_cons.
    rewrite (scan_once_digit lim fuel room c (t ++ rest) Hc).
    unfold match_number.
    replace (N.eqb c (chr "-")) with false.
    2:{ symmetry. clear - Hc. digit_cases Hc; reflexivity. }
    cbv beta iota. rewrite app_comm_cons. rewrite <- Hval.
    apply (number_tail lim false c t rest Hc Hnz Ht Hrest).
  - change (Z.abs (Z.neg p)) with (Z.pos p). rewrite decimal_neg, decimal_pos.
    pose proof (uint_digits (Pos.to_uint p)) as Hall.
    pose proof (digits_value p) as Hval.
    destruct (to_uint_shape p) as (c & t & Heq & Hc & Hnz).
    rewrite Heq in Hall, Hval |- *.
    cbn [forallb] in Hall. apply andb_true_iff in Hall. destruct Hall as [_ Ht].
    rewrite <- !app_comm_cons.
    rewrite (scan_once_minus lim fuel room c (t ++ rest) Hc).
    unfold match_number. rewrite N.eqb_refl.
    cbv beta iota. rewrite app_comm_cons.
    change (Z.neg p) with (- Z.pos p)%Z. rewrite <- Hval.
    apply (number_tail lim true c t rest Hc Hnz Ht Hrest).
Qed.

(** The decimal text of an integer starts with a digit or a minus sign. *)
Lemma decimal_starts (z : Z) (rest : pystr) :
  skip_ws (decimal z ++ rest) = decimal z ++ rest.
Proof.
  destruct z as [|p|p].
  - reflexivity.
  - rewrite decimal_pos.
    destruct (to_uint_shape p) as (c & t & Heq & Hc & _).
    rewrite Heq. rewrite <- app_comm_cons.
    apply ObjectFacts.skip_ws_stop. clear - Hc. digit_cases Hc; reflexivity.
  - rewrite decimal_neg. reflexivity.
Qed.

End NumberFacts.

(** * Values written by [json.dumps], read by [json.loads] *)

Module RoundTrip.
Import Decoder.

Lemma encode_list (items : list pyvalue) :
  json_dumps (PyList items)
  = chars (lit "[") ++ encode_elements items ++ chars (lit "]").
Proof.
  unfold json_dumps. cbn [Encoder.encode].
  apply (f_equal (fun t => chars (lit "[") ++ t ++ chars (lit "]"))).
  induction items as [|x items IH]; [reflexivity|].
  cbn [encode_elements]. unfold json_dumps at 1.
  apply (f_equal (fun t => Encoder.encode x ++ t)).
  destruct items as [|y items]; [reflexivity|].
  apply (f_equal (fun t => chars (lit ", ") ++ t)). exact IH.
Qed.

Lemma encode_dict (items : pydict) :
  json_dumps (PyDict items)
  = chars (lit "{") ++ encode_members items ++ chars (lit "}").
Proof.
  unfold json_dumps. cbn [Encoder.encode].
  apply (f_equal (fun t => chars (lit "{") ++ t ++ chars (lit "}"))).
  induction items as [|[k x] items IH]; [reflexivity|].
  cbn [encode_members]. unfold json_dumps at 1.
  apply (f_equal (fun t => chars (Encoder.encode_str k) ++ chars (lit ": ")
                             ++ Encoder.encode x ++ t)).
  destruct items as [|y items]; [reflexivity|].
  apply (f_equal (fun t => chars (lit ", ") ++ t)). exact IH.
Qed.

Lemma codes_app (a b : pytext) : codes (a ++ b) = codes a ++ codes b.
Proof. unfold codes. apply flat_map_app. Qed.

Lemma codes_chars (s : pystr) : codes (chars s) = s.
Proof.
  induction s as [|c s IH]; [reflexivity|].
  simpl. f_equal. exact IH.
Qed.

(** Induction over values, through the lists and dicts nested in them. *)
Lemma pyvalue_induction (P : pyvalue -> Prop) :
  P PyNone ->
  (forall b, P (PyBool b)) ->
  (forall z, P (PyInt z)) ->
  (forall f, P (PyFloat f)) ->
  (forall s, P (PyStr s)) ->
  (forall items, Forall P items -> P (PyList items)) ->
  (forall items, Forall (fun kv => P (snd kv)) items -> P (PyDict items)) ->
  forall v, P v.
Proof.
  intros HNone HBool HInt HFloat HStr HList HDict.
  fix IH 1. intros [ |b|z|f|s|items|items].
  - exact HNone.
  - apply HBool.
  - apply HInt.
  - apply HFloat.
  - apply HStr.
  - apply HList.
    revert items. fix IHl 1. intros [|x items].
    + constructor.
    + constructor; [apply IH|apply IHl].
  - apply HDict.
    revert items. fix IHl 1. intros [|[k x] items].
    + constructor.
    + constructor; [apply IH|apply IHl].
Qed.

Lemma decimal_head (z : Z) :
  exists (c : codepoint) (t : pystr),
    decimal z = c :: t /\ (is_digit c = true \/ c = chr "-").
Proof.
  destruct z as [|p|p].
  - exists 48%N, []. split; [reflexivity|left; reflexivity].
  - rewrite DecimalFacts.decimal_pos.
    destruct (NumberFacts.to_uint_shape p) as (c & t & Heq & Hc & _).
    exists c, t. split; [exact Heq|left; exact Hc].
  - rewrite DecimalFacts.decimal_neg. eexists. eexists.
    split; [reflexivity|right; reflexivity].
Qed.

(** The text of a value starts with a character that is neither white
    space, a closing bracket nor a byte order mark. *)
Lemma value_starts (v : pyvalue) :
  portable v = true ->
  exists (c : codepoint) (t : pystr),
    codes (json_dumps v) = c :: t
    /\ is_ws c = false
    /\ N.eqb c (chr "]") = false
    /\ N.eqb c (chr "}") = false
    /\ N.eqb 65279%N c = false.
Proof.
  intros Hv. destruct v as [ |b|z|f|s|items|items].
  - eexists. eexists. split; [reflexivity|repeat split].
  - destruct b; eexists; eexists; (split; [reflexivity|repeat split]).
  - unfold json_dumps. cbn [Encoder.encode]. rewrite codes_chars.
    destruct (decimal_head z) as (c & t & Heq & [Hc| ->]).
    + exists c, t. split; [exact Heq|].
      clear - Hc. NumberFacts.digit_cases Hc; repeat split.
    + eexists. eexists. split; [exact Heq|repeat split].
  - discriminate.
  - unfold json_dumps. cbn [Encoder.encode]. rewrite codes_chars.
    unfold Encoder.encode_str. eexists. eexists.
    split; [reflexivity|repeat split].
  - rewrite encode_list, codes_app.
    eexists. eexists. split; [reflexivity|repeat split].
  - rewrite encode_dict, codes_app.
    eexists. eexists. split; [reflexivity|repeat split].
Qed.

Lemma value_skip_ws (v : pyvalue) (tail : pystr) :
  portable v = true ->
  skip_ws (codes (json_dumps v) ++ tail) = codes (json_dumps v) ++ tail.
Proof.
  intros Hv. destruct (value_starts v Hv) as (c & t & Heq & Hws & _).
  rewrite Heq. rewrite <- app_comm_cons.
  apply ObjectFacts.skip_ws_stop. exact Hws.
Qed.

(** The loop over the elements of an array, on the text of a list. *)
Lemma array_loop (lim room : nat) (items : list pyvalue) :
  forall (x : pyvalue) (acc : list pyvalue) (rest : pystr),
    Forall (reads_back lim room) (x :: items) ->
    forallb portable (x :: items) = true ->
    exists N : nat,
      forall fuel : nat,
        (N <= fuel)%nat ->
        array_items lim fuel room
          (codes (encode_elements (x :: items)) ++ chr "]" :: rest) acc
        = Scanned (PyList (rev acc ++ x :: items)) rest.
Proof.
  induction items as [|y items IH]; intros x acc rest Hread Hport.
  - inversion Hread as [|? ? Hx _]; subst.
    destruct (Hx (chr "]" :: rest) eq_refl) as [N HN].
    exists (S N). intros [|fuel] Hfuel; [lia|].
    cbn [encode_elements]. rewrite app_nil_r.
    cbn [array_items]. rewrite (HN fuel) by lia.
    rewrite (ObjectFacts.skip_ws_stop (chr "]") rest eq_refl).
    rewrite N.eqb_refl. reflexivity.
  - inversion Hread as [|? ? Hx Hrest]; subst.
    cbn [forallb] in Hport. apply andb_true_iff in Hport.
    destruct Hport as [Hpx Hport].
    pose proof Hport as Hport'.
    cbn [forallb] in Hport'. apply andb_true_iff in Hport'.
    destruct Hport' as [Hpy _].
    destruct (IH y (x :: acc) rest Hrest Hport) as [N2 HN2].
    set (tail := codes (encode_elements (y :: items)) ++ chr "]" :: rest) in *.
    destruct (Hx (chr "," :: chr " " :: tail) eq_refl) as [N1 HN1].
    exists (S (Nat.max N1 N2)). intros [|fuel] Hfuel; [lia|].
    replace (codes (encode_elements (x :: y :: items)) ++ chr "]" :: rest)
      with (codes (json_dumps x) ++ chr "," :: chr " " :: tail).
    2:{ subst tail. cbn [encode_elements].
        rewrite !codes_app, codes_chars, <- !app_assoc. reflexivity. }
    cbn [array_items]. rewrite (HN1 fuel) by lia.
    rewrite (ObjectFacts.skip_ws_stop (chr ",") _ eq_refl).
    replace (N.eqb (chr ",") (chr "]")) with false by reflexivity.
    rewrite N.eqb_refl.
    change (skip_ws (chr " " :: tail)) with (skip_ws tail).
    subst tail. cbn [encode_elements] in *.
    rewrite codes_app, <- app_assoc, (value_skip_ws y _ Hpy).
    rewrite app_assoc, <- codes_app.
    rewrite (HN2 fuel) by lia.
    cbn [rev]. rewrite <- app_assoc. reflexivity.
Qed.

Lemma str_eqb_sym (a b : pystr) : str_eqb a b = str_eqb b a.
Proof.
  destruct (str_eqb a b) eqn:E.
  - apply str_eqb_eq in E. subst b. symmetry. apply str_eqb_refl.
  - apply str_eqb_neq in E. symmetry. apply str_eqb_neq. congruence.
Qed.

Lemma distinct_fresh (l1 : list pystr) (k : pystr) (l2 : list pystr) :
  distinct (l1 ++ k :: l2) = true -> existsb (str_eqb k) l1 = false.
Proof.
  induction l1 as [|a l1 IH]; [reflexivity|].
  cbn [app distinct existsb]. intros H.
  apply andb_true_iff in H. destruct H as [Ha Hd].
  apply negb_true_iff in Ha. rewrite existsb_app in Ha.
  apply orb_false_iff in Ha. destruct Ha as [_ Ha].
  cbn [existsb] in Ha. apply orb_false_iff in Ha. destruct Ha as [Hak _].
  rewrite (str_eqb_sym k a), Hak. apply (IH Hd).
Qed.

Lemma dict_set_fresh (k : pystr) (v : pyvalue) (acc : pydict) :
  existsb (str_eqb k) (map fst acc) = false ->
  dict_set k v acc = acc ++ [(k, v)].
Proof.
  induction acc as [|[k' v'] acc IH]; [reflexivity|].
  cbn [map fst existsb dict_set app]. intros H.
  apply orb_false_iff in H. destruct H as [Hk Hrest].
  rewrite Hk, (IH Hrest). reflexivity.
Qed.

(** One turn of the loop over the members of an object, for a key written
    by the encoder. *)
Lemma member_turn (lim fuel room : nat) (k vtext tail : pystr) (acc : pydict) :
  forallb scalar k = true ->
  skip_ws (vtext ++ tail) = vtext ++ tail ->
  object_members lim (S fuel) room
    (Encoder.encode_str k ++ chr ":" :: chr " " :: vtext ++ tail) acc
  = match scan_once lim fuel room (vtext ++ tail) with
    | Scanned v r3 =>
        match skip_ws r3 with
        | c3 :: r4 =>
            if N.eqb c3 (chr "}")
            then Scanned (PyDict (dict_set k v acc)) r4
            else if N.eqb c3 (chr ",")
            then object_members lim fuel room (skip_ws r4) (dict_set k v acc)
            else Malformed
        | [] => Malformed
        end
    | Failed e => Failed e
    | Starved => Starved
    end.
Proof.
  intros Hk Hskip.
  unfold Encoder.encode_str. rewrite <- app_comm_cons, <- app_assoc.
  cbn [app]. cbn [object_members]. rewrite N.eqb_refl.
  rewrite (EscapeFacts.scanstring_encoded k _ [] Hk). cbn [rev app].
  rewrite (ObjectFacts.skip_ws_stop (chr ":") _ eq_refl). rewrite N.eqb_refl.
  change (skip_ws (chr " " :: vtext ++ tail)) with (skip_ws (vtext ++ tail)).
  rewrite Hskip. reflexivity.
Qed.

Lemma member_scan (lim fuel room : nat) (k vtext tail : pystr) (v : pyvalue)
      (acc : pydict) :
  forallb scalar k = true ->
  skip_ws (vtext ++ tail) = vtext ++ tail ->
  scan_once lim fuel room (vtext ++ tail) = Scanned v tail ->
  object_members lim (S fuel) room
    (Encoder.encode_str k ++ chr ":" :: chr " " :: vtext ++ tail) acc
  = match skip_ws tail with
    | c3 :: r4 =>
        if N.eqb c3 (chr "}")
        then Scanned (PyDict (dict_set k v acc)) r4
        else if N.eqb c3 (chr ",")
        then object_members lim fuel room (skip_ws r4) (dict_set k v acc)
        else Malformed
    | [] => Malformed
    end.
Proof.
  intros Hk Hskip Hscan.
  rewrite (member_turn lim fuel room k vtext tail acc Hk Hskip), Hscan.
  reflexivity.
Qed.

(** The loop over the members of an object, on the text of a dict. *)
Lemma object_loop (lim room : nat) (items : pydict) :
  forall (k : pystr) (x : pyvalue) (acc : pydict) (rest : pystr),
    Forall (fun kv => reads_back lim room (snd kv)) ((k, x) :: items) ->
    forallb (fun kv => forallb scalar (fst kv) && portable (snd kv))
      ((k, x) :: items) = true ->
    distinct (map fst (acc ++ (k, x) :: items)) = true ->
    exists N : nat,
      forall fuel : nat,
        (N <= fuel)%nat ->
        object_members lim fuel room
          (codes (encode_members ((k, x) :: items)) ++ chr "}" :: rest) acc
        = Scanned (PyDict (acc ++ (k, x) :: items)) rest.
Proof.
  induction items as [|[k2 y] items IH]; intros k x acc rest Hread Hport Hdist.
  - inversion Hread as [|? ? Hx _]; subst. cbn [snd] in Hx.
    cbn [forallb fst snd] in Hport. rewrite andb_true_r in Hport.
    apply andb_true_iff in Hport. destruct Hport as [Hk Hpx].
    destruct (Hx (chr "}" :: rest) eq_refl) as [N HN].
    exists (S N). intros [|fuel] Hfuel; [lia|].
    replace (codes (encode_members [(k, x)]) ++ chr "}" :: rest)
      with (Encoder.encode_str k
              ++ chr ":" :: chr " " :: codes (json_dumps x) ++ chr "}" :: rest).
    2:{ cbn [encode_members]. rewrite app_nil_r.
        rewrite !codes_app, !codes_chars, <- !app_assoc. reflexivity. }
    rewrite (member_scan lim fuel room k _ _ x acc Hk (value_skip_ws x _ Hpx)
               (HN fuel ltac:(lia))).
    rewrite (ObjectFacts.skip_ws_stop (chr "}") rest eq_refl).
    rewrite N.eqb_refl.
    rewrite dict_set_fresh; [reflexivity|].
    rewrite map_app in Hdist. apply (distinct_fresh _ _ _ Hdist).
  - inversion Hread as [|? ? Hx Hrest]; subst. cbn [snd] in Hx.
    cbn [forallb] in Hport. apply andb_true_iff in Hport.
    destruct Hport as [Hkx Hport].
    cbn [fst snd] in Hkx. apply andb_true_iff in Hkx. destruct Hkx as [Hk Hpx].
    pose proof Hport as Hport'.
    cbn [forallb fst snd] in Hport'. apply andb_true_iff in Hport'.
    destruct Hport' as [Hky _].
    apply andb_true_iff in Hky. destruct Hky as [Hk2 Hpy].
    assert (Hfresh : existsb (str_eqb k) (map fst acc) = false).
    { rewrite map_app in Hdist. apply (distinct_fresh _ _ _ Hdist). }
    assert (Hdist' : distinct (map fst ((acc ++ [(k, x)]) ++ (k2, y) :: items))
                     = true).
    { rewrite <- app_assoc. exact Hdist. }
    destruct (IH k2 y (acc ++ [(k, x)]) rest Hrest Hport Hdist') as [N2 HN2].
    set (tail := codes (encode_members ((k2, y) :: items)) ++ chr "}" :: rest)
      in *.
    destruct (Hx (chr "," :: chr " " :: tail) eq_refl) as [N1 HN1].
    exists (S (Nat.max N1 N2)). intros [|fuel] Hfuel; [lia|].
    replace (codes (encode_members ((k, x) :: (k2, y) :: items))
               ++ chr "}" :: rest)
      with (Encoder.encode_str k
              ++ chr ":" :: chr " "
              :: codes (json_dumps x) ++ chr "," :: chr " " :: tail).
    2:{ subst tail. cbn [encode_members].
        rewrite !codes_app, !codes_chars, <- !app_assoc. reflexivity. }
    rewrite (member_scan lim fuel room k _ _ x acc Hk (value_skip_ws x _ Hpx)
               (HN1 fuel ltac:(lia))).
    rewrite (ObjectFacts.skip_ws_stop (chr ",") _ eq_refl).
    replace (N.eqb (chr ",") (chr "}")) with false by reflexivity.
    rewrite N.eqb_refl.
    change (skip_ws (chr " " :: tail)) with (skip_ws tail).
    assert (Htail : skip_ws tail = tail).
    { subst tail. cbn [encode_members].
      rewrite !codes_app, codes_chars. unfold Encoder.encode_str.
      rewrite <- !app_assoc, <- !app_comm_cons.
      apply ObjectFacts.skip_ws_stop. reflexivity. }
    rewrite Htail, (dict_set_fresh k x acc Hfresh).
    rewrite (HN2 fuel) by lia.
    rewrite <- app_assoc. reflexivity.
Qed.

Lemma scan_once_open_list (lim fuel room : nat) (c1 : codepoint) (r : pystr) :
  is_ws c1 = false ->
  N.eqb c1 (chr "]") = false ->
  scan_once lim (S fuel) (S room) (chr "[" :: c1 :: r)
  = array_items lim fuel room (c1 :: r) [].
Proof.
  intros Hws Hc. cbn [scan_once].
  change (N.eqb (chr "[") quote_mark) with false.
  change (N.eqb (chr "[") (chr "{")) with false.
  change (N.eqb (chr "[") (chr "[")) with true. cbv iota.
  rewrite (ObjectFacts.skip_ws_stop c1 r Hws), Hc. reflexivity.
Qed.

Lemma scan_once_open_dict (lim fuel room : nat) (c1 : codepoint) (r : pystr) :
  is_ws c1 = false ->
  N.eqb c1 (chr "}") = false ->
  scan_once lim (S fuel) (S room) (chr "{" :: c1 :: r)
  = object_members lim fuel room (c1 :: r) [].
Proof.
  intros Hws Hc. cbn [scan_once].
  change (N.eqb (chr "{") quote_mark) with false.
  change (N.eqb (chr "{") (chr "{")) with true. cbv iota.
  rewrite (ObjectFacts.skip_ws_stop c1 r Hws), Hc. reflexivity.
Qed.

Lemma forall_reads_back (lim room : nat) (items : list pyvalue) :
  Forall (fun v => forall room : nat,
            portable v = true -> fits lim room v = true ->
            reads_back lim room v) items ->
  forallb portable items = true ->
  forallb (fits lim room) items = true ->
  Forall (reads_back lim room) items.
Proof.
  induction 1 as [|x items Hx _ IH]; intros Hp Hf; [constructor|].
  cbn [forallb] in Hp, Hf.
  apply andb_true_iff in Hp. destruct Hp as [Hpx Hp].
  apply andb_true_iff in Hf. destruct Hf as [Hfx Hf].
  constructor; auto.
Qed.

Lemma forall_members_read_back (lim room : nat) (items : pydict) :
  Forall (fun kv => forall room : nat,
            portable (snd kv) = true -> fits lim room (snd kv) = true ->
            reads_back lim room (snd kv)) items ->
  forallb (fun kv => forallb scalar (fst kv) && portable (snd kv)) items = true ->
  forallb (fun kv => fits lim room (snd kv)) items = true ->
  Forall (fun kv => reads_back lim room (snd kv)) items.
Proof.
  induction 1 as [|x items Hx _ IH]; intros Hp Hf; [constructor|].
  cbn [forallb] in Hp, Hf.
  apply andb_true_iff in Hp. destruct Hp as [Hpx Hp].
  apply andb_true_iff in Hpx. destruct Hpx as [_ Hpx].
  apply andb_true_iff in Hf. destruct Hf as [Hfx Hf].
  constructor; auto.
Qed.

(** Every portable value within the limits is read back from its text. *)
Lemma portable_reads_back (lim : nat) (v : pyvalue) :
  forall room : nat,
    portable v = true -> fits lim room v = true -> reads_back lim room v.
Proof.
  induction v as [ |b|z|f|s|items IH|items IH] using pyvalue_induction;
    intros room Hv Hf rest Hrest.
  - exists 1%nat. intros [|fuel] Hfuel; [lia|]. reflexivity.
  - exists 1%nat. intros [|fuel] Hfuel; [lia|]. destruct b; reflexivity.
  - exists 1%nat. intros [|fuel] Hfuel; [lia|].
    unfold json_dumps. cbn [Encoder.encode]. rewrite codes_chars.
    rewrite (NumberFacts.scan_once_decimal lim fuel room z rest Hrest).
    change (negb (too_long lim (decimal (Z.abs z))) = true) in Hf.
    apply negb_true_iff in Hf. rewrite Hf. reflexivity.
  - discriminate.
  - exists 1%nat. intros [|fuel] Hfuel; [lia|].
    unfold json_dumps. cbn [Encoder.encode]. rewrite codes_chars.
    unfold Encoder.encode_str. rewrite <- app_comm_cons, <- app_assoc.
    cbn [app]. cbn [scan_once]. rewrite N.eqb_refl.
    cbn [portable] in Hv.
    rewrite (EscapeFacts.scanstring_encoded s rest [] Hv). reflexivity.
  - cbn [portable] in Hv.
    destruct room as [|room]; [discriminate|].
    change (forallb (fits lim room) items = true) in Hf.
    pose proof (forall_reads_back lim room items IH Hv Hf) as Hread.
    rewrite encode_list, !codes_app, !codes_chars.
    destruct items as [|x items].
    { exists 1%nat. intros [|fuel] Hfuel; [lia|]. reflexivity. }
    destruct (array_loop lim room items x [] rest Hread Hv) as [N HN].
    pose proof Hv as Hv'. cbn [forallb] in Hv'.
    apply andb_true_iff in Hv'. destruct Hv' as [Hpx _].
    destruct (value_starts x Hpx) as (c1 & t1 & Heq & Hws & Hnb & _).
    exists (S N). intros [|fuel] Hfuel; [lia|].
    specialize (HN fuel ltac:(lia)).
    change (lit "[") with [chr "["]. change (lit "]") with [chr "]"].
    rewrite <- !app_assoc. cbn [app].
    cbn [app rev] in HN.
    cbn [encode_elements] in HN |- *. rewrite codes_app, Heq in HN |- *.
    rewrite <- !app_assoc, <- !app_comm_cons in HN |- *.
    rewrite (scan_once_open_list lim fuel room c1 _ Hws Hnb). exact HN.
  - cbn [portable] in Hv. apply andb_true_iff in Hv. destruct Hv as [Hdist Hv].
    destruct room as [|room]; [discriminate|].
    change (forallb (fun kv => fits lim room (snd kv)) items = true) in Hf.
    pose proof (forall_members_read_back lim room items IH Hv Hf) as Hread.
    rewrite encode_dict, !codes_app, !codes_chars.
    destruct items as [|[k x] items].
    { exists 1%nat. intros [|fuel] Hfuel; [lia|]. reflexivity. }
    destruct (object_loop lim room items k x [] rest Hread Hv Hdist) as [N HN].
    exists (S N). intros [|fuel] Hfuel; [lia|].
    specialize (HN fuel ltac:(lia)).
    change (lit "{") with [chr "{"]. change (lit "}") with [chr "}"].
    rewrite <- !app_assoc. cbn [app].
    cbn [app] in HN.
    cbn [encode_members] in HN |- *.
    rewrite !codes_app, codes_chars in HN |- *.
    unfold Encoder.encode_str in HN |- *.
    rewrite <- !app_assoc, <- !app_comm_cons in HN |- *.
    rewrite (scan_once_open_dict lim fuel room quote_mark _ eq_refl eq_refl).
    exact HN.
Qed.

Lemma chars_app (a b : pystr) : chars (a ++ b) = chars a ++ chars b.
Proof. apply map_app. Qed.

Lemma plain_app (a b : pytext) :
  a = chars (codes a) -> b = chars (codes b) -> a ++ b = chars (codes (a ++ b)).
Proof.
  intros Ha Hb. rewrite codes_app, chars_app, <- Ha, <- Hb. reflexivity.
Qed.

Lemma plain_chars (s : pystr) : chars s = chars (codes (chars s)).
Proof. rewrite codes_chars. reflexivity. Qed.

(** The text of a portable value has no opaque rendering in it. *)
Lemma dumps_plain (v : pyvalue) :
  portable v = true -> json_dumps v = chars (codes (json_dumps v)).
Proof.
  induction v as [ |b|z|f|s|items IH|items IH] using pyvalue_induction;
    intros Hv.
  - reflexivity.
  - destruct b; reflexivity.
  - apply plain_chars.
  - discriminate.
  - apply plain_chars.
  - cbn [portable] in Hv. rewrite encode_list.
    apply plain_app; [apply plain_chars|].
    apply plain_app; [|apply plain_chars].
    induction IH as [|x items Hx _ IHl]; [reflexivity|].
    cbn [forallb] in Hv. apply andb_true_iff in Hv. destruct Hv as [Hpx Hv].
    cbn [encode_elements]. apply plain_app; [exact (Hx Hpx)|].
    destruct items as [|y items]; [reflexivity|].
    apply plain_app; [apply plain_chars|exact (IHl Hv)].
  - cbn [portable] in Hv. apply andb_true_iff in Hv. destruct Hv as [_ Hv].
    rewrite encode_dict.
    apply plain_app; [apply plain_chars|].
    apply plain_app; [|apply plain_chars].
    induction IH as [|[k x] items Hx _ IHl]; [reflexivity|].
    cbn [forallb] in Hv. apply andb_true_iff in Hv. destruct Hv as [Hpx Hv].
    cbn [fst snd] in Hpx, Hx. apply andb_true_iff in Hpx.
    destruct Hpx as [_ Hpx].
    cbn [encode_members].
    apply plain_app; [apply plain_chars|].
    apply plain_app; [apply plain_chars|].
    apply plain_app; [exact (Hx Hpx)|].
    destruct items as [|y items]; [reflexivity|].
    apply plain_app; [apply plain_chars|exact (IHl Hv)].
Qed.

(** The values of a portable dict are portable. *)
Lemma portable_lookup (k : pystr) (d : pydict) (v : pyvalue) :
  portable (PyDict d) = true -> dict_lookup k d = Some v -> portable v = true.
Proof.
  cbn [portable]. intros H. apply andb_true_iff in H. destruct H as [_ H].
  induction d as [|[k' x] d IH]; [discriminate|].
  cbn [forallb fst snd] in H. apply andb_true_iff in H. destruct H as [Hx H].
  apply andb_true_iff in Hx. destruct Hx as [_ Hx].
  cbn [dict_lookup]. destruct (str_eqb k k').
  - intros E. injection E as <-. exact Hx.
  - apply (IH H).
Qed.

End RoundTrip.

(** Reading back what [json.dumps] wrote gives the value it was given,
    as long as the value is within the limits of the decoder. *)
Lemma loads_dumps (lim room : nat) (v : pyvalue) :
  portable v = true ->
  fits lim room v = true ->
  Decoder.loads lim room (codes (json_dumps v)) = inr v.
Proof.
  intros Hv Hf.
  destruct (RoundTrip.value_starts v Hv) as (c & t & Heq & Hws & _ & _ & Hbom).
  destruct (RoundTrip.portable_reads_back lim v room Hv Hf [] eq_refl) as [N HN].
  rewrite app_nil_r in HN.
  unfold Decoder.loads.
  replace (startswith [65279%N] (codes (json_dumps v))) with false.
  2:{ rewrite Heq. cbn [startswith]. rewrite Hbom. reflexivity. }
  replace (Decoder.skip_ws (codes (json_dumps v))) with (codes (json_dumps v)).
  2:{ rewrite Heq. symmetry. apply ObjectFacts.skip_ws_stop. exact Hws. }
  rewrite (FuelFacts.scan_once_fuel lim room (codes (json_dumps v))
             (Decoder.fuel_for (codes (json_dumps v)))
             (Nat.max N (Decoder.fuel_for (codes (json_dumps v))))).
  2:{ unfold Decoder.fuel_for. lia. }
  2:{ unfold Decoder.fuel_for. lia. }
  rewrite HN by lia. reflexivity.
Qed.

(** * Arguments sent through [json.dumps] *)

(** X9: the tool sees the argument object its caller serialised: for every
    dict of portable values (no float, strings of Unicode scalar values, no
    key twice) that stays within the limits of the decoder (arrays and
    objects nested no deeper than the recursion limit allows, integers of
    no more digits than [int()] accepts), running [--execute] on the text
    that [json.dumps] writes for it exits with status 0 and prints the
    sentence for the dict's own "location" value, or for "unknown" when it
    has none. *)
Theorem run_dumped_arguments (prog : pystr) (d : pydict) (rest : list pystr)
        (w : world) :
  portable (PyDict d) = true ->
  fits_in default_runtime (PyDict d) = true ->
  json_dumps (PyDict d) = chars (codes (json_dumps (PyDict d)))
  /\ run (prog :: lit "--execute" :: codes (json_dumps (PyDict d)) :: rest) w
     = (0%Z,
        printed
          (weather_text
             (match dict_lookup (lit "location") d with
              | Some v => v
              | None => PyStr (lit "unknown")
              end)) w).
Proof.
  intros Hd Hf. split.
  - apply (RoundTrip.dumps_plain (PyDict d) Hd).
  - rewrite (@run_execute_dict prog (codes (json_dumps (PyDict d))) rest d w
               (loads_dumps 4300 995 (PyDict d) Hd Hf)).
    rewrite weather_text_writable.
    destruct (dict_lookup (lit "location") d) as [v|] eqn:Hk; [|reflexivity].
    pose proof (RoundTrip.portable_lookup (lit "location") d v Hd Hk) as Hv.
    destruct v as [ |b|z|f|s|items|items]; try reflexivity.
    cbn [portable] in Hv. rewrite Hv. reflexivity.
Qed.

Lemma run_dumped_arguments_witness :
  portable (PyDict [(lit "units", PyStr (lit "metric"));
                    (lit "location", PyList [PyInt 59; PyInt 10]);
                    (lit "days", PyNone)]) = true
  /\ fits_in default_runtime
       (PyDict [(lit "units", PyStr (lit "metric"));
                (lit "location", PyList [PyInt 59; PyInt 10]);
                (lit "days", PyNone)]) = true
  /\ run [lit "weather.py"; lit "--execute";
          codes (json_dumps (PyDict [(lit "units", PyStr (lit "metric"));
                                     (lit "location", PyList [PyInt 59; PyInt 10]);
                                     (lit "days", PyNone)]))] idle
     = (0%Z,
        printed
          (chars (lit "The weather in ")
             ++ [StrOf (PyList [PyInt 59; PyInt 10])]
             ++ chars (lit " is sunny and 72" ++ [degree_sign] ++ lit "F"))
          idle).
Proof.
  split; [reflexivity|]. split; [reflexivity|].
  apply (run_dumped_arguments (lit "weather.py")
           [(lit "units", PyStr (lit "metric"));
            (lit "location", PyList [PyInt 59; PyInt 10]);
            (lit "days", PyNone)] [] idle);
    reflexivity.
Defined.

(** * A location given as an integer *)

Lemma integer_location_shape (z : Z) :
  integer_location_payload z
  = chr "{" :: Encoder.encode_str (lit "location")
      ++ chr ":" :: chr " " :: decimal z ++ [chr "}"].
Proof.
  unfold integer_location_payload.
  change (json_lit "{'location': ")
    with (chr "{" :: Encoder.encode_str (lit "location") ++ [chr ":"; chr " "]).
  rewrite <- app_comm_cons, <- app_assoc. reflexivity.
Qed.

(** The payload decodes unless the integer has too many digits. *)
Lemma loads_integer_location (lim room : nat) (z : Z) :
  Decoder.loads lim (S room) (integer_location_payload z)
  = if Decoder.too_long lim (decimal (Z.abs z)) then inl ValueError
    else inr (PyDict [(lit "location", PyInt z)]).
Proof.
  rewrite integer_location_shape. unfold Decoder.loads.
  set (body := Encoder.encode_str (lit "location")
                 ++ chr ":" :: chr " " :: decimal z ++ [chr "}"]).
  replace (startswith [65279%N] (chr "{" :: body)) with false by reflexivity.
  rewrite (ObjectFacts.skip_ws_stop (chr "{") body eq_refl).
  unfold Decoder.fuel_for.
  assert (Hn : (2 * List.length (chr "{" :: body) + 1
                = S (S (S (2 * List.length body))))%nat).
  { cbn [List.length]. lia. }
  rewrite Hn. clear Hn.
  generalize (2 * List.length body)%nat. intros fuel.
  assert (Hq : exists t, body = quote_mark :: t).
  { subst body. unfold Encoder.encode_str. eexists. reflexivity. }
  destruct Hq as [t Ht]. rewrite Ht.
  rewrite (RoundTrip.scan_once_open_dict lim (S (S fuel)) room quote_mark t
             eq_refl eq_refl).
  rewrite <- Ht. subst body.
  rewrite (RoundTrip.member_turn lim (S fuel) room (lit "location") (decimal z)
             [chr "}"] [] eq_refl (NumberFacts.decimal_starts z [chr "}"])).
  rewrite (NumberFacts.scan_once_decimal lim fuel room z [chr "}"] eq_refl).
  destruct (Decoder.too_long lim (decimal (Z.abs z))); reflexivity.
Qed.

Lemma weather_text_decimal (z : Z) :
  weather_text (PyInt z) = chars (sentence (decimal z)).
Proof.
  unfold weather_text, format_value, sentence, chars.
  rewrite !map_app. reflexivity.
Qed.

(** X10: a location given as a JSON integer is echoed in decimal as long
    as [int()] accepts it: [--execute] with the object that maps "location"
    to the integer z prints the sentence for the digits of z when z has at
    most 4300 digits, and ends with an uncaught [ValueError], nothing
    printed, when it has more. *)
Theorem run_integer_location (prog : pystr) (z : Z) (rest : list pystr)
        (w : world) :
  run (prog :: lit "--execute" :: integer_location_payload z :: rest) w
  = if Nat.leb (List.length (decimal (Z.abs z))) 4300
    then (0%Z, printed (chars (sentence (decimal z))) w)
    else (1%Z, traceback ValueError w).
Proof.
  pose proof (loads_integer_location 4300 994 z) as Hl.
  change (Decoder.loads 4300 995 (integer_location_payload z))
    with (json_loads (integer_location_payload z)) in Hl.
  assert (Hlong : Decoder.too_long 4300 (decimal (Z.abs z))
                  = negb (Nat.leb (List.length (decimal (Z.abs z))) 4300)).
  { unfold Decoder.too_long. rewrite Nat.ltb_antisym. reflexivity. }
  rewrite Hlong in Hl.
  destruct (Nat.leb (List.length (decimal (Z.abs z))) 4300); cbn [negb] in Hl.
  - rewrite (@run_execute_dict prog (integer_location_payload z) rest
               [(lit "location", PyInt z)] w Hl).
    cbn [dict_lookup]. rewrite str_eqb_refl.
    rewrite weather_text_writable, weather_text_decimal. reflexivity.
  - apply (@run_execute_raise prog (integer_location_payload z) rest
             ValueError w Hl).
Qed.

(** * The sentence determines the location *)

(** X11: [get_weather] is injective on strings: when two location strings
    give the same sentence, they are the same string. *)
Theorem get_weather_injective (s1 s2 : pystr) (w1 w2 : world) :
  fst (get_weather (PyStr s1) w1) = fst (get_weather (PyStr s2) w2) ->
  s1 = s2.
Proof.
  unfold get_weather, ret, format_value. cbn [fst]. intros H.
  injection H as H.
  apply app_inv_tail in H.
  unfold chars in H. revert s2 H.
  induction s1 as [|c s1 IH]; intros [|c2 s2] H; try discriminate;
    [reflexivity|].
  cbn [map] in H. injection H as Hc H. f_equal; auto.
Qed.

Lemma get_weather_injective_witness :
  fst (get_weather (PyStr (lit "Oslo")) idle)
    = fst (get_weather (PyStr (lit "Oslo")) idle)
  /\ lit "Oslo" = lit "Oslo".
Proof.
  split; [reflexivity|].
  apply (get_weather_injective (lit "Oslo") (lit "Oslo") idle idle).
  reflexivity.
Defined.

(** * A byte order mark *)

(** X12: a second argument that begins with a byte order mark is rejected
    whatever follows it, valid JSON included. *)
Theorem execute_bom_payload (prog payload : pystr) (rest : list pystr)
        (w : world) :
  run (prog :: lit "--execute" :: (65279%N :: payload) :: rest) w
    = (1%Z, traceback JSONDecodeError w).
Proof.
  apply (@run_execute_raise prog (65279%N :: payload) rest JSONDecodeError w).
  reflexivity.
Qed.

(** * Witnesses for the payload theorems *)

Lemma run_location_string_witness :
  forallb plain_char (lit "New York") = true
  /\ forallb scalar (lit "New York") = true
  /\ run [lit "weather.py"; lit "--execute"; location_payload (lit "New York")]
         idle
     = (0%Z, printed (chars (sentence (lit "New York"))) idle).
Proof.
  split; [reflexivity|]. split; [reflexivity|].
  apply (@run_location_string (lit "weather.py") (lit "New York") [] idle);
    reflexivity.
Defined.

Lemma payload_padding_ignored_witness :
  blank [chr " "; 10%N] = true
  /\ blank [9%N] = true
  /\ run [lit "weather.py"; lit "--execute"; [chr " "; 10%N] ++ lit "{}" ++ [9%N]]
         idle
     = run [lit "weather.py"; lit "--execute"; lit "{}"] idle.
Proof.
  split; [reflexivity|]. split; [reflexivity|].
  apply (payload_padding_ignored (lit "weather.py") [chr " "; 10%N] (lit "{}")
           [9%N] [] idle); reflexivity.
Defined.

(** * A control character in the location *)

Lemma scanstring_control (pre : pystr) (c : codepoint) (rest acc : pystr) :
  forallb plain_char pre = true ->
  N.ltb c 32 = true ->
  Decoder.scanstring (pre ++ c :: rest) acc None = Decoder.Malformed.
Proof.
  intros Hpre Hc. revert acc.
  induction pre as [|p pre IH]; intros acc.
  - apply N.ltb_lt in Hc. cbn [app]. cbn [Decoder.scanstring].
    replace (N.eqb c quote_mark) with false
      by (symmetry; apply N.eqb_neq; unfold quote_mark; lia).
    replace (N.eqb c (chr "\")) with false
      by (symmetry; apply N.eqb_neq; change (chr "\") with 92%N; lia).
    replace (N.ltb c 32) with true by (symmetry; apply N.ltb_lt; exact Hc).
    reflexivity.
  - cbn [forallb] in Hpre. apply andb_true_iff in Hpre.
    destruct Hpre as [Hp Hpre].
    unfold plain_char in Hp.
    apply andb_true_iff in Hp. destruct Hp as [Hp Hb].
    apply andb_true_iff in Hp. destruct Hp as [Hlo Hq].
    apply negb_true_iff in Hq, Hb. apply N.leb_le in Hlo.
    cbn [app]. cbn [Decoder.scanstring]. rewrite Hq, Hb.
    replace (N.ltb p 32) with false by (symmetry; apply N.ltb_ge; exact Hlo).
    apply (IH Hpre).
Qed.

Lemma loads_control (lim room : nat) (pre : pystr) (c : codepoint)
      (post : pystr) :
  forallb plain_char pre = true ->
  N.ltb c 32 = true ->
  Decoder.loads lim (S room) (location_payload (pre ++ c :: post))
  = inl JSONDecodeError.
Proof.
  intros Hpre Hc.
  unfold Decoder.loads, location_payload.
  change (json_lit "{'location': '")
    with (chr "{" :: quote_mark :: lit "location"
            ++ quote_mark :: chr ":" :: chr " " :: [quote_mark]).
  change (json_lit "'}") with [quote_mark; chr "}"].
  unfold Decoder.fuel_for.
  set (n := List.length _).
  assert (Hn : (2 * n + 1 = S (S (S (2 * n - 2))))%nat).
  { subst n. simpl. rewrite length_app. simpl. lia. }
  rewrite Hn. clear Hn. generalize (2 * n - 2)%nat. clear n. intros fuel.
  unfold chr. simpl.
  rewrite <- app_assoc. cbn [app].
  rewrite (scanstring_control pre c _ [] Hpre Hc). reflexivity.
Qed.

Lemma json_loads_control (pre : pystr) (c : codepoint) (post : pystr) :
  forallb plain_char pre = true ->
  N.ltb c 32 = true ->
  json_loads (location_payload (pre ++ c :: post)) = inl JSONDecodeError.
Proof. apply (loads_control 4300 994 pre c post). Qed.

(** X13: a raw control character inside the location string makes the
    payload malformed: the run ends with an uncaught [JSONDecodeError] and
    prints nothing. *)
Theorem run_control_character (prog pre : pystr) (c : codepoint)
        (post : pystr) (rest : list pystr) (w : world) :
  forallb plain_char pre = true ->
  N.ltb c 32 = true ->
  run (prog :: lit "--execute" :: location_payload (pre ++ c :: post) :: rest) w
    = (1%Z, traceback JSONDecodeError w).
Proof.
  intros Hpre Hc.
  apply (@run_execute_raise prog (location_payload (pre ++ c :: post)) rest
           JSONDecodeError w).
  apply (json_loads_control pre c post Hpre Hc).
Qed.

Lemma run_control_character_witness :
  forallb plain_char (lit "New") = true
  /\ N.ltb 10 32 = true
  /\ run [lit "weather.py"; lit "--execute";
          location_payload (lit "New" ++ 10%N :: lit "York")] idle
     = (1%Z, traceback JSONDecodeError idle).
Proof.
  split; [reflexivity|]. split; [reflexivity|].
  apply (run_control_character (lit "weather.py") (lit "New") 10%N (lit "York")
           [] idle); reflexivity.
Defined.

(** * The round trip itself *)

(** X14: what [json.dumps] writes for a portable value is plain text, and
    [json.loads] reads that text back as the value itself, whatever the
    limits of the interpreter, as long as the value stays within them: it
    nests no deeper than the recursion limit allows, and its integers have
    no more digits than [int()] accepts. *)
Theorem json_round_trip (rt : runtime) (v : pyvalue) :
  portable v = true ->
  fits_in rt v = true ->
  json_dumps v = chars (codes (json_dumps v))
  /\ json_loads_in rt (codes (json_dumps v)) = inr v.
Proof.
  intros Hv Hf. split.
  - apply (RoundTrip.dumps_plain v Hv).
  - apply (loads_dumps (max_str_digits rt) (recursion_room rt) v Hv Hf).
Qed.

Lemma json_round_trip_witness :
  portable schema = true
  /\ fits_in default_runtime schema = true
  /\ json_dumps schema = chars (codes (json_dumps schema))
  /\ json_loads_in default_runtime (codes (json_dumps schema)) = inr schema.
Proof.
  split; [reflexivity|]. split; [reflexivity|].
  apply (json_round_trip default_runtime schema); reflexivity.
Defined.


(** * An output stream without the degree sign *)

(** X15: the sentence always holds the degree sign, so under an output
    stream that cannot encode U+00B0 (ASCII, for one) no run of the execute
    branch prints: whenever the payload decodes to an object, the run
    ends with an uncaught [UnicodeEncodeError], exit status 1, standard
    output untouched. *)
Theorem degree_sign_needed (rt : runtime) (prog payload : pystr)
        (rest : list pystr) (d : pydict) (w : world) :
  can_write rt (Ch degree_sign) = false ->
  json_loads_in rt payload = inr (PyDict d) ->
  run_in rt (prog :: lit "--execute" :: payload :: rest) w
  = (1%Z, traceback UnicodeEncodeError w).
Proof.
  intros Hdeg Hl.
  rewrite (@run_in_execute_dict rt prog payload rest d w Hl).
  rewrite print_in_refused; [reflexivity|].
  unfold weather_text. rewrite !writable_app.
  unfold chars. rewrite !map_app, !writable_app.
  replace (writable rt (map Ch [degree_sign])) with false.
  2:{ unfold writable. cbn [map forallb]. rewrite Hdeg. reflexivity. }
  cbn [andb]. rewrite !andb_false_r. reflexivity.
Qed.

Lemma degree_sign_needed_witness :
  can_write (mkRuntime (fun g => match g with
                                 | Ch c => N.ltb c 128
                                 | StrOf _ => true
                                 end) 4300 995) (Ch degree_sign) = false
  /\ json_loads_in (mkRuntime (fun g => match g with
                                        | Ch c => N.ltb c 128
                                        | StrOf _ => true
                                        end) 4300 995) (lit "{}")
     = inr (PyDict [])
  /\ run_in (mkRuntime (fun g => match g with
                                 | Ch c => N.ltb c 128
                                 | StrOf _ => true
                                 end) 4300 995)
       [lit "weather.py"; lit "--execute"; lit "{}"] idle
     = (1%Z, traceback UnicodeEncodeError idle).
Proof.
  split; [reflexivity|]. split; [reflexivity|].
  apply (degree_sign_needed
           (mkRuntime (fun g => match g with
                                | Ch c => N.ltb c 128
                                | StrOf _ => true
                                end) 4300 995)
           (lit "weather.py") (lit "{}") [] [] idle);
    reflexivity.
Defined.
